(** * RenderDocMCP: the action-tree serializer and the frame summary

    A shallow embedding of
    - [Serializers.serialize_flags] and [Serializers.serialize_actions]
      (renderdoc_extension/utils/serializers.py),
    - [Helpers.flatten_actions] and [Helpers.count_children]
      (renderdoc_extension/utils/helpers.py),
    - the counting and top-level-marker part of
      [ActionService.get_frame_summary]
      (renderdoc_extension/services/action_service.py),
    followed by the properties of the tree filter that the specification
    states about them. *)

From Stdlib Require Import ZArith List String Ascii Bool Lia Permutation.
From Stdlib Require Import DecimalString Sorted.
Import ListNotations.
Open Scope string_scope.
Open Scope list_scope.
Open Scope Z_scope.

(** ** Data model *)

(** The enumeration [rd.ActionFlags] belongs to the [renderdoc] module,
    which is not part of the repository.  The code only ever combines its
    members with [&] and [|], so the nineteen members it names are taken as
    a table of integers. *)
Record ActionFlags : Type := mkActionFlags {
  Drawcall : Z;
  Dispatch : Z;
  Clear : Z;
  PushMarker : Z;
  PopMarker : Z;
  SetMarker : Z;
  Present : Z;
  Copy : Z;
  Resolve : Z;
  GenMips : Z;
  PassBoundary : Z;
  Indexed : Z;
  Instanced : Z;
  Auto : Z;
  Indirect : Z;
  ClearColor : Z;
  ClearDepthStencil : Z;
  BeginPass : Z;
  EndPass : Z
}.

(** Modelled from the spec: the values of [rd.ActionFlags] are missing from
    the sources; the specification says that [flags] is a bitmask in which
    each bit independently represents one category.  This instance gives
    every category a bit of its own, laid out like RenderDoc's enumeration
    (action types in the low half-word, modifiers from bit 16 on).  It is
    used for concrete runs only; the general theorems quantify over the
    table. *)
Definition renderdoc_flags : ActionFlags := {|
  Clear := 0x1;
  Drawcall := 0x2;
  Dispatch := 0x4;
  SetMarker := 0x20;
  PushMarker := 0x40;
  PopMarker := 0x80;
  Present := 0x100;
  Copy := 0x400;
  Resolve := 0x800;
  GenMips := 0x1000;
  PassBoundary := 0x2000;
  Indexed := 0x10000;
  Instanced := 0x20000;
  Auto := 0x40000;
  Indirect := 0x80000;
  ClearColor := 0x100000;
  ClearDepthStencil := 0x200000;
  BeginPass := 0x400000;
  EndPass := 0x800000
|}.

#[local] Unset Elimination Schemes.

(** One recorded action.  [name] stands for
    [action.GetName(structured_file)], which the replay engine answers. *)
Inductive Action : Type := mkAction {
  eventId : Z;
  actionId : Z;
  name : string;
  flags : Z;
  numIndices : Z;
  numInstances : Z;
  children : list Action
}.

(** One serialized action: the dictionary built at the end of the loop body
    of [serialize_actions].  [item_children] is [None] when the dictionary
    has no ["children"] key. *)
Inductive Item : Type := mkItem {
  event_id : Z;
  action_id : Z;
  item_name : string;
  item_flags : list string;
  num_indices : Z;
  num_instances : Z;
  item_children : option (list Item)
}.

#[local] Set Elimination Schemes.

(** The keyword arguments of [serialize_actions] ([_in_matching_marker] is
    passed separately, as it changes along the recursion). *)
Record Config : Type := mkConfig {
  include_children : bool;
  marker_filter : option string;
  exclude_markers : option (list string);
  event_id_min : option Z;
  event_id_max : option Z;
  only_actions : bool;
  flags_filter : option (list string)
}.

(** ** Python primitives *)

(** [x & y] used as a condition: true when the result is not zero. *)
Definition has_flag (x y : Z) : bool := negb (Z.land x y =? 0).

(** [needle in hay] on strings: [needle] occurs as a contiguous substring. *)
Fixpoint contains (needle hay : string) : bool :=
  String.prefix needle hay ||
  match hay with
  | EmptyString => false
  | String _ rest => contains needle rest
  end.

(** Truth value of a list used as a condition. *)
Definition nonempty {A : Type} (l : list A) : bool :=
  match l with [] => false | _ :: _ => true end.

(** Truth value of an optional string: [None] and [""] are false. *)
Definition str_truthy (o : option string) : bool :=
  match o with
  | Some s => negb (String.eqb s "")
  | None => false
  end.

(** Truth value of an optional list: [None] and [[]] are false. *)
Definition list_truthy {A : Type} (o : option (list A)) : bool :=
  match o with
  | Some l => nonempty l
  | None => false
  end.

Definition opt_list {A : Type} (o : option (list A)) : list A :=
  match o with Some l => l | None => [] end.

Definition opt_string (o : option string) : string :=
  match o with Some s => s | None => "" end.

(** [f in set(l)] *)
Definition mem_string (f : string) (l : list string) : bool :=
  existsb (String.eqb f) l.

Section Serializers.

Variable rd : ActionFlags.

(** ** serialize_flags *)

Definition flag_map : list (Z * string) :=
  [ (Drawcall rd, "Drawcall");
    (Dispatch rd, "Dispatch");
    (Clear rd, "Clear");
    (PushMarker rd, "PushMarker");
    (PopMarker rd, "PopMarker");
    (SetMarker rd, "SetMarker");
    (Present rd, "Present");
    (Copy rd, "Copy");
    (Resolve rd, "Resolve");
    (GenMips rd, "GenMips");
    (PassBoundary rd, "PassBoundary");
    (Indexed rd, "Indexed");
    (Instanced rd, "Instanced");
    (Auto rd, "Auto");
    (Indirect rd, "Indirect");
    (ClearColor rd, "ClearColor");
    (ClearDepthStencil rd, "ClearDepthStencil");
    (BeginPass rd, "BeginPass");
    (EndPass rd, "EndPass") ].

(** The loop [for flag, name in flag_map], started with the names collected
    so far. *)
Definition collect_flags (fl : Z) (table : list (Z * string))
    (flag_names : list string) : list string :=
  fold_left
    (fun acc (entry : Z * string) =>
       if has_flag fl (fst entry) then acc ++ [snd entry] else acc)
    table flag_names.

Definition serialize_flags (fl : Z) : list string :=
  collect_flags fl flag_map [].

(** ** serialize_actions *)

Definition is_push_marker (fl : Z) : bool := has_flag fl (PushMarker rd).
Definition is_set_marker (fl : Z) : bool := has_flag fl (SetMarker rd).
Definition is_pop_marker (fl : Z) : bool := has_flag fl (PopMarker rd).
Definition is_marker (fl : Z) : bool :=
  is_push_marker fl || is_set_marker fl || is_pop_marker fl.

(** Step 1: the [continue] of the [exclude_markers] check. *)
Definition excluded (cfg : Config) (nm : string) (fl : Z) : bool :=
  list_truthy (exclude_markers cfg) && is_marker fl &&
  existsb (fun ex => contains ex nm) (opt_list (exclude_markers cfg)).

(** Step 2: the value of [in_matching] for a node, from the inherited
    [_in_matching_marker]. *)
Definition in_matching_at (cfg : Config) (inherited : bool)
    (nm : string) (fl : Z) : bool :=
  if str_truthy (marker_filter cfg) && is_push_marker fl &&
     contains (opt_string (marker_filter cfg)) nm
  then true else inherited.

(** Step 3: the value of [in_range]. *)
Definition in_range_at (cfg : Config) (eid : Z) (fl : Z) : bool :=
  if is_marker fl then true
  else
    negb (match event_id_min cfg with Some lo => eid <? lo | None => false end)
    && negb (match event_id_max cfg with Some hi => eid >? hi | None => false end).

(** Step 5: the [continue] of the [flags_filter] check. *)
Definition flags_rejected (cfg : Config) (fl : Z) : bool :=
  list_truthy (flags_filter cfg) && negb (is_marker fl) &&
  negb (existsb (fun f => mem_string f (opt_list (flags_filter cfg)))
          (serialize_flags fl)).

(** Step 6. *)
Definition passes_marker_filter_at (cfg : Config) (in_matching : bool) : bool :=
  negb (str_truthy (marker_filter cfg)) || in_matching.

Definition children_field (children_result : list Item) : option (list Item) :=
  if nonempty children_result then Some children_result else None.

(** One iteration of [for action in actions]: the items it adds to
    [serialized]. *)
Fixpoint serialize_action (cfg : Config) (_in_matching_marker : bool)
    (action : Action) : list Item :=
  match action with
  | mkAction eid aid nm fl ni ninst kids =>
    if excluded cfg nm fl then []
    else
      let in_matching := in_matching_at cfg _in_matching_marker nm fl in
      let in_range := in_range_at cfg eid fl in
      if only_actions cfg && is_marker fl then
        if include_children cfg && nonempty kids
        then flat_map (serialize_action cfg in_matching) kids
        else []
      else if flags_rejected cfg fl then []
      else
        let passes_marker_filter := passes_marker_filter_at cfg in_matching in
        let children_result :=
          if include_children cfg && nonempty kids
          then flat_map (serialize_action cfg in_matching) kids
          else [] in
        let has_passing_children := nonempty children_result in
        let should_include :=
          if is_marker fl
          then has_passing_children && passes_marker_filter
          else in_range && passes_marker_filter in
        if should_include
        then [mkItem eid aid nm (serialize_flags fl) ni ninst
                (children_field children_result)]
        else []
  end.

Definition serialize_actions (cfg : Config) (_in_matching_marker : bool)
    (actions : list Action) : list Item :=
  flat_map (serialize_action cfg _in_matching_marker) actions.

(** [children_result] of the loop body, which is also what the
    [only_actions] branch splices: the filtered children of a node whose
    [in_matching] is given. *)
Definition children_result_of (cfg : Config) (in_matching : bool)
    (kids : list Action) : list Item :=
  if include_children cfg && nonempty kids
  then serialize_actions cfg in_matching kids
  else [].

(** The dictionary built for [action] when it is included with the given
    [in_matching]. *)
Definition emitted_from (cfg : Config) (action : Action) (in_matching : bool)
    (it : Item) : Prop :=
  it = mkItem (eventId action) (actionId action) (name action)
         (serialize_flags (flags action)) (numIndices action)
         (numInstances action)
         (children_field (children_result_of cfg in_matching (children action))).

(** A dictionary has an origin among the nodes [l]: the node it was built
    from and the flag that node was visited with; the node passed the
    [exclude_markers] check, and when it is a marker it has children, and
    filtered children. *)
Definition has_origin (cfg : Config) (l : list Action) (it : Item) : Prop :=
  exists a inm',
    In a l /\ emitted_from cfg a inm' it /\
    excluded cfg (name a) (flags a) = false /\
    (is_marker (flags a) = true ->
     children a <> [] /\ children_result_of cfg inm' (children a) <> []).

(** The loop body reaches a recursive call on the children of [action]. *)
Definition recurses (cfg : Config) (action : Action) : bool :=
  negb (excluded cfg (name action) (flags action)) &&
  (include_children cfg && nonempty (children action)) &&
  ((only_actions cfg && is_marker (flags action)) ||
   negb (flags_rejected cfg (flags action))).

(** [visits cfg inm l m d]: the call of [serialize_actions] on [l] with
    [_in_matching_marker = inm], or one of the recursive calls it makes,
    reaches step 2 for the node [d] and computes [in_matching = m] there. *)
Inductive visits (cfg : Config) : bool -> list Action -> bool -> Action -> Prop :=
| visits_here inm l a :
    In a l -> excluded cfg (name a) (flags a) = false ->
    visits cfg inm l (in_matching_at cfg inm (name a) (flags a)) a
| visits_below inm l a m d :
    In a l -> recurses cfg a = true ->
    visits cfg (in_matching_at cfg inm (name a) (flags a)) (children a) m d ->
    visits cfg inm l m d.

(** ** Helpers *)

Fixpoint flatten_action (action : Action) : list Action :=
  match action with
  | mkAction _ _ _ _ _ _ kids =>
    action :: (if nonempty kids then flat_map flatten_action kids else [])
  end.

Definition flatten_actions (actions : list Action) : list Action :=
  flat_map flatten_action actions.

Fixpoint count_children (action : Action) : Z :=
  match action with
  | mkAction _ _ _ _ _ _ kids =>
    if nonempty kids
    then fold_left (fun count child => count + 1 + count_children child) kids 0
    else 0
  end.

(** ** get_frame_summary *)

(** The dictionary [stats]. *)
Record Stats : Type := mkStats {
  draw_calls : Z;
  dispatches : Z;
  clears : Z;
  copies : Z;
  presents : Z;
  markers : Z
}.

(** What the closure [count_actions] mutates: [stats] and
    [total_actions[0]]. *)
Record Counters : Type := mkCounters {
  stats : Stats;
  total_actions : Z
}.

Definition initial_counters : Counters :=
  mkCounters (mkStats 0 0 0 0 0 0) 0.

Definition bump_total (c : Counters) : Counters :=
  mkCounters (stats c) (total_actions c + 1).

Definition on_stats (f : Stats -> Stats) (c : Counters) : Counters :=
  mkCounters (f (stats c)) (total_actions c).

Definition count_flags (fl : Z) (c : Counters) : Counters :=
  let c := if has_flag fl (Drawcall rd)
           then on_stats (fun s => mkStats (draw_calls s + 1) (dispatches s)
                            (clears s) (copies s) (presents s) (markers s)) c
           else c in
  let c := if has_flag fl (Dispatch rd)
           then on_stats (fun s => mkStats (draw_calls s) (dispatches s + 1)
                            (clears s) (copies s) (presents s) (markers s)) c
           else c in
  let c := if has_flag fl (Clear rd)
           then on_stats (fun s => mkStats (draw_calls s) (dispatches s)
                            (clears s + 1) (copies s) (presents s) (markers s)) c
           else c in
  let c := if has_flag fl (Copy rd)
           then on_stats (fun s => mkStats (draw_calls s) (dispatches s)
                            (clears s) (copies s + 1) (presents s) (markers s)) c
           else c in
  let c := if has_flag fl (Present rd)
           then on_stats (fun s => mkStats (draw_calls s) (dispatches s)
                            (clears s) (copies s) (presents s + 1) (markers s)) c
           else c in
  if has_flag fl (Z.lor (PushMarker rd) (SetMarker rd))
  then on_stats (fun s => mkStats (draw_calls s) (dispatches s)
                   (clears s) (copies s) (presents s) (markers s + 1)) c
  else c.

(** One iteration of the loop of [count_actions], threading the counters. *)
Fixpoint count_action (c : Counters) (action : Action) {struct action}
    : Counters :=
  match action with
  | mkAction _ _ _ fl _ _ kids =>
    let c := count_flags fl (bump_total c) in
    if nonempty kids then fold_left count_action kids c else c
  end.

Definition count_actions (c : Counters) (actions : list Action) : Counters :=
  fold_left count_action actions c.

(** An entry of [top_markers]. *)
Record TopMarker : Type := mkTopMarker {
  tm_name : string;
  tm_event_id : Z;
  child_count : Z
}.

Definition top_level_markers (root_actions : list Action) : list TopMarker :=
  fold_left
    (fun top_markers action =>
       if has_flag (flags action) (PushMarker rd)
       then top_markers ++
            [mkTopMarker (name action) (eventId action) (count_children action)]
       else top_markers)
    root_actions [].

(** The dictionary [result["summary"]].  [api], and the numbers of textures
    and buffers, are answers of the replay controller. *)
Record Summary : Type := mkSummary {
  sum_api : string;
  sum_total_actions : Z;
  sum_statistics : Stats;
  sum_top_level_markers : list TopMarker;
  sum_textures : Z;
  sum_buffers : Z
}.

Definition get_frame_summary (api : string) (textures buffers : Z)
    (root_actions : list Action) : Summary :=
  let c := count_actions initial_counters root_actions in
  mkSummary api (total_actions c) (stats c)
    (top_level_markers root_actions) textures buffers.

(** ** Vocabulary of the specification *)

(** Every dictionary of an output, in pre-order. *)
Fixpoint items_of (it : Item) : list Item :=
  match it with
  | mkItem _ _ _ _ _ _ kids =>
    it :: match kids with
          | Some cs => flat_map items_of cs
          | None => []
          end
  end.

Definition all_items (out : list Item) : list Item := flat_map items_of out.

(** A dictionary describes a marker when its ["flags"] list names one of the
    three marker categories. *)
Definition item_is_marker (it : Item) : bool :=
  mem_string "PushMarker" (item_flags it) ||
  mem_string "SetMarker" (item_flags it) ||
  mem_string "PopMarker" (item_flags it).

(** The event ids of the non-marker dictionaries of an output, in
    pre-order. *)
Definition leaf_ids (out : list Item) : list Z :=
  map event_id (filter (fun it => negb (item_is_marker it)) (all_items out)).

(** Removing the marker dictionaries of an output and moving their children
    one level up. *)
Fixpoint splice_item (it : Item) : list Item :=
  match it with
  | mkItem eid aid nm fls ni ninst kids =>
    let kids' := match kids with
                 | Some cs => flat_map splice_item cs
                 | None => []
                 end in
    if item_is_marker it then kids'
    else [mkItem eid aid nm fls ni ninst (children_field kids')]
  end.

Definition splice_markers (out : list Item) : list Item :=
  flat_map splice_item out.

(** The projection of a whole tree, nothing left out: the image an
    isomorphic output has. *)
Fixpoint project_tree (action : Action) : Item :=
  match action with
  | mkAction eid aid nm fl ni ninst kids =>
    mkItem eid aid nm (serialize_flags fl) ni ninst
      (children_field (map project_tree kids))
  end.

(** No marker of the tree, at any depth, is without children. *)
Fixpoint no_childless_marker (action : Action) : bool :=
  match action with
  | mkAction _ _ _ fl _ _ kids =>
    negb (is_marker fl && negb (nonempty kids)) &&
    forallb no_childless_marker kids
  end.

(** The configuration in which nothing is asked for. *)
Definition unset_config (with_children : bool) : Config :=
  mkConfig with_children None None None None false None.

(** The configuration in which only the event-id range is asked for. *)
Definition range_config (with_children : bool) (lo hi : option Z) : Config :=
  mkConfig with_children None None lo hi false None.

(** [eid] lies in the inclusive range whose bounds may be absent. *)
Definition within_range (lo hi : option Z) (eid : Z) : bool :=
  match lo with Some l => l <=? eid | None => true end &&
  match hi with Some h => eid <=? h | None => true end.

(** A node is suppressed by [exclude_markers] when it is a marker whose name
    contains one of the listed strings. *)
Definition suppressed (cfg : Config) (action : Action) : bool :=
  is_marker (flags action) &&
  existsb (fun ex => contains ex (name action)) (opt_list (exclude_markers cfg)).

(** The event ids of the nodes outside every suppressed subtree, and of the
    nodes inside one, both in pre-order. *)
Fixpoint surviving_ids_of (cfg : Config) (action : Action) : list Z :=
  match action with
  | mkAction eid _ _ _ _ _ kids =>
    if suppressed cfg action then []
    else eid :: flat_map (surviving_ids_of cfg) kids
  end.

Fixpoint suppressed_ids_of (cfg : Config) (action : Action) : list Z :=
  match action with
  | mkAction _ _ _ _ _ _ kids =>
    if suppressed cfg action then map eventId (flatten_action action)
    else flat_map (suppressed_ids_of cfg) kids
  end.

(** A tree without its suppressed subtrees: nothing when the node itself
    is suppressed, otherwise the node above its pruned children. *)
Fixpoint prune_excluded (cfg : Config) (action : Action) : list Action :=
  match action with
  | mkAction eid aid nm fl ni ninst kids =>
    if suppressed cfg action then []
    else [mkAction eid aid nm fl ni ninst (flat_map (prune_excluded cfg) kids)]
  end.

(** The root-level test of a run without children: a non-marker that passes
    the category, range and scope filters. *)
Definition passes_at_root (cfg : Config) (in_matching : bool)
    (action : Action) : bool :=
  negb (is_marker (flags action)) &&
  negb (flags_rejected cfg (flags action)) &&
  in_range_at cfg (eventId action) (flags action) &&
  passes_marker_filter_at cfg in_matching.

Definition project_flat (action : Action) : Item :=
  mkItem (eventId action) (actionId action) (name action)
    (serialize_flags (flags action)) (numIndices action) (numInstances action)
    None.

(** What it is for a root action to be a non-marker that passes the range,
    category and scope filters, in plain terms: none of the three marker
    bits is set; the event id is not below a configured minimum nor above a
    configured maximum; when a non-empty [flags_filter] is configured, one
    of the flag names of the action is listed in it; and when a non-empty
    [marker_filter] is configured, the run was entered inside a matching
    marker. *)
Definition root_action_passes (cfg : Config) (in_matching : bool)
    (action : Action) : Prop :=
  Z.land (flags action) (PushMarker rd) = 0 /\
  Z.land (flags action) (SetMarker rd) = 0 /\
  Z.land (flags action) (PopMarker rd) = 0 /\
  (forall lo, event_id_min cfg = Some lo -> lo <= eventId action) /\
  (forall hi, event_id_max cfg = Some hi -> eventId action <= hi) /\
  (forall wanted,
      flags_filter cfg = Some wanted -> wanted <> [] ->
      exists f, In f (serialize_flags (flags action)) /\ In f wanted) /\
  (forall mf, marker_filter cfg = Some mf -> mf <> "" -> in_matching = true).

End Serializers.

(** The configuration [cfg] with [only_actions] replaced. *)
Definition with_only_actions (b : bool) (cfg : Config) : Config :=
  mkConfig (include_children cfg) (marker_filter cfg) (exclude_markers cfg)
    (event_id_min cfg) (event_id_max cfg) b (flags_filter cfg).

(** The configuration [cfg] with [marker_filter] removed. *)
Definition without_marker_filter (cfg : Config) : Config :=
  mkConfig (include_children cfg) None (exclude_markers cfg)
    (event_id_min cfg) (event_id_max cfg) (only_actions cfg) (flags_filter cfg).

(** The configuration [cfg] with [exclude_markers] removed. *)
Definition without_exclude_markers (cfg : Config) : Config :=
  mkConfig (include_children cfg) (marker_filter cfg) None
    (event_id_min cfg) (event_id_max cfg) (only_actions cfg) (flags_filter cfg).

(** ** Results and errors *)

(** What a service method gives back: its return value, or the message of
    the [ValueError] it raises. *)
Inductive Result (A : Type) : Type :=
| Ok (value : A)
| ValueError (msg : string).

Arguments Ok {A} value.
Arguments ValueError {A} msg.

(** ** get_draw_calls *)

(** [ActionService.get_draw_calls].  [capture_loaded] is the answer of
    [ctx.IsCaptureLoaded()], [root_actions] the answer of
    [controller.GetRootActions()]; the value is the list stored under
    ["actions"].  The top-level call leaves [_in_matching_marker] at its
    default, [False]. *)
Definition get_draw_calls (rd : ActionFlags) (capture_loaded : bool)
    (root_actions : list Action) (cfg : Config) : Result (list Item) :=
  if negb capture_loaded then ValueError "No capture loaded"
  else Ok (serialize_actions rd cfg false root_actions).

(** The tests of the loop body that [action] has passed when a dictionary
    is built for it, [in_matching] being the flag computed at step 2. *)
Definition included_at (rd : ActionFlags) (cfg : Config) (in_matching : bool)
    (action : Action) : bool :=
  negb (excluded rd cfg (name action) (flags action)) &&
  negb (only_actions cfg && is_marker rd (flags action)) &&
  negb (flags_rejected rd cfg (flags action)) &&
  (if is_marker rd (flags action)
   then nonempty (children_result_of rd cfg in_matching (children action))
   else in_range_at rd cfg (eventId action) (flags action)) &&
  passes_marker_filter_at cfg in_matching.

(** [subseq l1 l2]: [l1] is [l2] with some elements left out, the others
    in their order. *)
Inductive subseq {A : Type} : list A -> list A -> Prop :=
| subseq_nil : subseq [] []
| subseq_skip x l1 l2 : subseq l1 l2 -> subseq l1 (x :: l2)
| subseq_take x l1 l2 : subseq l1 l2 -> subseq (x :: l1) (x :: l2).

(** ** Parsers and the shader stages *)

(** The members of [rd.ShaderStage] that the repository names. *)
Inductive ShaderStage : Type :=
| Vertex | Hull | Domain | Geometry | Pixel | Compute.

(** [Helpers.get_all_shader_stages] *)
Definition get_all_shader_stages : list ShaderStage :=
  [Vertex; Hull; Domain; Geometry; Pixel; Compute].

(** [str.lower] on the letters A to Z; every other byte is kept.  A string
    is the UTF-8 text of the Python string: on characters outside ASCII
    [str.lower] yields no ASCII letter other than ["k"], which none of the
    strings compared below contains, so the comparisons made on the result
    are those of the source. *)
Definition lower_ascii (c : ascii) : ascii :=
  let n := nat_of_ascii c in
  if (65 <=? n)%nat && (n <=? 90)%nat then ascii_of_nat (n + 32) else c.

Fixpoint lower (s : string) : string :=
  match s with
  | EmptyString => EmptyString
  | String c rest => String (lower_ascii c) (lower rest)
  end.

(** [d[key]] on a dictionary with string keys written as a literal:
    [None] when [key not in d]. *)
Fixpoint dict_get {V : Type} (key : string) (d : list (string * V)) : option V :=
  match d with
  | [] => None
  | (k, v) :: rest => if String.eqb key k then Some v else dict_get key rest
  end.

Definition stage_map : list (string * ShaderStage) :=
  [ ("vertex", Vertex);
    ("hull", Hull);
    ("domain", Domain);
    ("geometry", Geometry);
    ("pixel", Pixel);
    ("compute", Compute) ].

(** [Parsers.parse_stage] *)
Definition parse_stage (stage_str : string) : Result ShaderStage :=
  let stage_lower := lower stage_str in
  match dict_get stage_lower stage_map with
  | None => ValueError (String.append "Unknown shader stage: " stage_str)
  | Some stage => Ok stage
  end.

(** The key of a stage in [stage_map]. *)
Definition stage_name (stage : ShaderStage) : string :=
  match stage with
  | Vertex => "vertex"
  | Hull => "hull"
  | Domain => "domain"
  | Geometry => "geometry"
  | Pixel => "pixel"
  | Compute => "compute"
  end.

(** [s.split("::")]: the pieces between the occurrences of ["::"], found
    from left to right without overlap. *)
Fixpoint split_colons (s : string) : list string :=
  match s with
  | EmptyString => [EmptyString]
  | String c rest =>
    match rest with
    | String c' rest' =>
      if Ascii.eqb c ":" && Ascii.eqb c' ":"
      then EmptyString :: split_colons rest'
      else match split_colons rest with
           | piece :: pieces => String c piece :: pieces
           | [] => [String c EmptyString]
           end
    | EmptyString => [String c EmptyString]
    end
  end.

(** A resource id of the replay engine, as far as the code looks at it:
    its [id]. *)
Record ResourceId : Type := mkResourceId { rid_id : Z }.

Definition rid_eqb (r1 r2 : ResourceId) : bool := rid_id r1 =? rid_id r2.

Section ResourceIds.

(** Python's [int] on a string: its value, or the [ValueError] it raises. *)
Variable py_int : string -> Result Z.

(** [Parsers.extract_numeric_id] *)
Definition extract_numeric_id (resource_id_str : string) : Result Z :=
  if contains "::" resource_id_str
  then py_int (last (split_colons resource_id_str) EmptyString)
  else py_int resource_id_str.

(** [Parsers.parse_resource_id] *)
Definition parse_resource_id (resource_id_str : string) : Result ResourceId :=
  let id_part :=
    if contains "::" resource_id_str
    then last (split_colons resource_id_str) EmptyString
    else resource_id_str in
  match py_int id_part with
  | Ok n => Ok (mkResourceId n)
  | ValueError msg => ValueError msg
  end.

End ResourceIds.

(** A stand-in for Python's [int] in concrete runs: it reads the strings
    made of ASCII decimal digits, on which it gives what [int] gives, and
    answers every other string with an error. *)
Fixpoint digits_value (acc : Z) (s : string) : option Z :=
  match s with
  | EmptyString => Some acc
  | String c rest =>
    let n := nat_of_ascii c in
    if (48 <=? n)%nat && (n <=? 57)%nat
    then digits_value (10 * acc + Z.of_nat (n - 48)) rest
    else None
  end.

Definition decimal_int (s : string) : Result Z :=
  match s with
  | EmptyString => ValueError "invalid literal for int() with base 10"
  | String _ _ =>
    match digits_value 0 s with
    | Some n => Ok n
    | None => ValueError "invalid literal for int() with base 10"
    end
  end.

(** ** The resource service *)

(** [x % d]: the decimal text of an integer. *)
Definition fmt_d (x : Z) : string := NilZero.string_of_int (Z.to_int x).

(** [data[start:stop]] for indices that are not negative. *)
Definition py_slice {A : Type} (data : list A) (start stop : Z) : list A :=
  firstn (Z.to_nat stop - Z.to_nat start) (skipn (Z.to_nat start) data).

(** A texture of the capture ([rd.TextureDescription]) with the attributes
    the code reads; [tex_format_name] is [tex.format.Name()] and
    [tex_type_str] is [str(tex.type)]. *)
Record Texture : Type := mkTexture {
  tex_resourceId : ResourceId;
  tex_width : Z;
  tex_height : Z;
  tex_depth : Z;
  tex_arraysize : Z;
  tex_mips : Z;
  tex_format_name : string;
  tex_type_str : string;
  tex_msSamp : Z;
  tex_byteSize : Z;
  tex_cubemap : bool
}.

(** The dictionary [result["data"]] of [get_texture_data]. *)
Record TextureData : Type := mkTextureData {
  td_resource_id : string;
  td_width : Z;
  td_height : Z;
  td_depth : Z;
  td_mip : Z;
  td_slice : Z;
  td_sample : Z;
  td_depth_slice : option Z;
  td_format : string;
  td_dimension : string;
  td_is_3d : bool;
  td_total_depth : Z;
  td_data_length : Z;
  td_content_base64 : string
}.

Section ResourceService.

Variable py_int : string -> Result Z.

(** [str(tex.resourceId)], as the replay engine prints it. *)
Variable str_rid : ResourceId -> string.

(** [base64.b64encode(data).decode("ascii")] *)
Variable b64encode : list Byte.byte -> string.

(** [controller.GetTextureData(resourceId, sub)] for the subresource
    [(mip, slice, sample)]: the bytes, or the text of the exception. *)
Variable GetTextureData : ResourceId -> Z -> Z -> Z -> Result (list Byte.byte).

(** The loop of [_find_texture_by_id]. *)
Fixpoint find_texture_loop (target_id : Z) (textures : list Texture)
    : Result (option Texture) :=
  match textures with
  | [] => Ok None
  | tex :: rest =>
    match extract_numeric_id py_int (str_rid (tex_resourceId tex)) with
    | ValueError msg => ValueError msg
    | Ok tex_id =>
      if tex_id =? target_id then Ok (Some tex)
      else find_texture_loop target_id rest
    end
  end.

(** [ResourceService._find_texture_by_id]; [textures] is the answer of
    [controller.GetTextures()].  An exception of [extract_numeric_id]
    leaves the function. *)
Definition _find_texture_by_id (textures : list Texture)
    (resource_id : string) : Result (option Texture) :=
  match extract_numeric_id py_int resource_id with
  | ValueError msg => ValueError msg
  | Ok target_id => find_texture_loop target_id textures
  end.

(** [ResourceService.get_texture_data].  The callback is run by [_invoke];
    an exception that leaves [_find_texture_by_id] is taken to leave the
    method as well. *)
Definition get_texture_data (capture_loaded : bool) (textures : list Texture)
    (resource_id : string) (mip slice sample : Z) (depth_slice : option Z)
    : Result TextureData :=
  if negb capture_loaded then ValueError "No capture loaded"
  else
    match _find_texture_by_id textures resource_id with
    | ValueError msg => ValueError msg
    | Ok None => ValueError (String.append "Texture not found: " resource_id)
    | Ok (Some tex_desc) =>
      if (mip <? 0) || (mip >=? tex_mips tex_desc) then
        ValueError
          (String.append "Invalid mip level "
             (String.append (fmt_d mip)
                (String.append " (texture has "
                   (String.append (fmt_d (tex_mips tex_desc)) " mips)"))))
      else
        let max_slices :=
          if tex_cubemap tex_desc then tex_arraysize tex_desc * 6
          else tex_arraysize tex_desc in
        if (slice <? 0) || ((max_slices >? 1) && (slice >=? max_slices)) then
          ValueError
            (String.append "Invalid slice "
               (String.append (fmt_d slice)
                  (String.append " (texture has "
                     (String.append (fmt_d max_slices) " slices)"))))
        else if (sample <? 0) ||
                ((tex_msSamp tex_desc >? 1) && (sample >=? tex_msSamp tex_desc))
        then
          ValueError
            (String.append "Invalid sample "
               (String.append (fmt_d sample)
                  (String.append " (texture has "
                     (String.append (fmt_d (tex_msSamp tex_desc)) " samples)"))))
        else
          let mip_width := Z.max 1 (Z.shiftr (tex_width tex_desc) mip) in
          let mip_height := Z.max 1 (Z.shiftr (tex_height tex_desc) mip) in
          let mip_depth := Z.max 1 (Z.shiftr (tex_depth tex_desc) mip) in
          let is_3d := tex_depth tex_desc >? 1 in
          let depth_error :=
            match depth_slice with
            | None => None
            | Some d =>
              if negb is_3d
              then Some "depth_slice can only be used with 3D textures"
              else if (d <? 0) || (d >=? mip_depth)
              then Some
                     (String.append "Invalid depth_slice "
                        (String.append (fmt_d d)
                           (String.append " (texture has "
                              (String.append (fmt_d mip_depth)
                                 (String.append " depth at mip "
                                    (String.append (fmt_d mip) ")"))))))
              else None
            end in
          match depth_error with
          | Some msg => ValueError msg
          | None =>
            match GetTextureData (tex_resourceId tex_desc) mip slice sample with
            | ValueError e =>
              ValueError (String.append "Failed to get texture data: " e)
            | Ok fetched =>
              let data :=
                match depth_slice with
                | Some d =>
                  if is_3d
                  then
                    let total_size := Z.of_nat (List.length fetched) in
                    let bytes_per_slice := total_size / mip_depth in
                    let slice_start := d * bytes_per_slice in
                    let slice_end := slice_start + bytes_per_slice in
                    py_slice fetched slice_start slice_end
                  else fetched
                | None => fetched
                end in
              let output_depth :=
                match depth_slice with
                | Some _ => if is_3d then 1 else mip_depth
                | None => mip_depth
                end in
              Ok (mkTextureData resource_id mip_width mip_height output_depth
                    mip slice sample depth_slice
                    (tex_format_name tex_desc) (tex_type_str tex_desc) is_3d
                    (if is_3d then mip_depth else 1)
                    (Z.of_nat (List.length data))
                    (b64encode data))
            end
          end
    end.

End ResourceService.

(** A buffer of the capture ([rd.BufferDescription]) with the attributes
    the code reads. *)
Record Buffer : Type := mkBuffer {
  buf_resourceId : ResourceId;
  buf_length : Z
}.

(** The dictionary [result["data"]] of [get_buffer_contents]. *)
Record BufferData : Type := mkBufferData {
  bd_resource_id : string;
  bd_length : Z;
  bd_total_size : Z;
  bd_offset : Z;
  bd_content_base64 : string
}.

Section BufferContents.

Variable py_int : string -> Result Z.
Variable b64encode : list Byte.byte -> string.

(** [controller.GetBufferData(rid, offset, length)]: the bytes, or the
    text of the exception, which nothing in the method catches. *)
Variable GetBufferData : ResourceId -> Z -> Z -> Result (list Byte.byte).

(** The loop over [controller.GetBuffers()], left at the first buffer
    whose id equals [rid]. *)
Definition find_buffer (rid : ResourceId) (buffers : list Buffer)
    : option Buffer :=
  find (fun buf => rid_eqb (buf_resourceId buf) rid) buffers.

(** [ResourceService.get_buffer_contents]; [buffers] is the answer of
    [controller.GetBuffers()].  Any exception of [parse_resource_id] is
    caught and its text replaced. *)
Definition get_buffer_contents (capture_loaded : bool) (buffers : list Buffer)
    (resource_id : string) (offset length : Z) : Result BufferData :=
  if negb capture_loaded then ValueError "No capture loaded"
  else
    match parse_resource_id py_int resource_id with
    | ValueError _ =>
      ValueError (String.append "Invalid resource ID: " resource_id)
    | Ok rid =>
      match find_buffer rid buffers with
      | None => ValueError (String.append "Buffer not found: " resource_id)
      | Some buf_desc =>
        let actual_length :=
          if length >? 0 then length else buf_length buf_desc in
        match GetBufferData rid offset actual_length with
        | ValueError e => ValueError e
        | Ok data =>
          Ok (mkBufferData resource_id (Z.of_nat (List.length data))
                (buf_length buf_desc) offset (b64encode data))
        end
      end
    end.

End BufferContents.

(** Base64 with the standard alphabet and padding, for concrete runs of
    the functions that take [b64encode] as a parameter. *)
Definition b64_char (n : nat) : ascii :=
  match String.get n
          "ABCDEFGHIJKLMNOPQRSTUVWXYZabcdefghijklmnopqrstuvwxyz0123456789+/"
  with
  | Some c => c
  | None => "="%char
  end.

Fixpoint b64_of_nats (l : list nat) : string :=
  match l with
  | a :: b :: c :: rest =>
    String (b64_char (Nat.div a 4))
      (String (b64_char (Nat.modulo a 4 * 16 + Nat.div b 16)%nat)
         (String (b64_char (Nat.modulo b 16 * 4 + Nat.div c 64)%nat)
            (String (b64_char (Nat.modulo c 64)) (b64_of_nats rest))))
  | [a; b] =>
    String (b64_char (Nat.div a 4))
      (String (b64_char (Nat.modulo a 4 * 16 + Nat.div b 16)%nat)
         (String (b64_char (Nat.modulo b 16 * 4)%nat) "="))
  | [a] =>
    String (b64_char (Nat.div a 4))
      (String (b64_char (Nat.modulo a 4 * 16)%nat) "==")
  | [] => EmptyString
  end.

Definition base64 (data : list Byte.byte) : string :=
  b64_of_nats (map (fun b => N.to_nat (Byte.to_N b)) data).

(** The form in which the replay engine prints a resource id, for concrete
    runs. *)
Definition print_rid (r : ResourceId) : string :=
  String.append "ResourceId::" (fmt_d (rid_id r)).

(** ** get_draw_call_details *)

(** An action with the attributes that only [get_draw_call_details] reads,
    beside those of [Action]. *)
Record ActionDescription : Type := mkActionDescription {
  ad_action : Action;
  baseVertex : Z;
  vertexOffset : Z;
  instanceOffset : Z;
  indexOffset : Z;
  outputs : list ResourceId;
  depthOut : ResourceId
}.

(** The dictionary [details]; an entry of [dd_outputs] is the pair of
    ["index"] and ["resource_id"], and [dd_depth_output] is [None] when the
    dictionary has no ["depth_output"] key. *)
Record DrawDetails : Type := mkDrawDetails {
  dd_event_id : Z;
  dd_action_id : Z;
  dd_name : string;
  dd_flags : list string;
  dd_num_indices : Z;
  dd_num_instances : Z;
  dd_base_vertex : Z;
  dd_vertex_offset : Z;
  dd_instance_offset : Z;
  dd_index_offset : Z;
  dd_outputs : list (Z * string);
  dd_depth_output : option string
}.

(** [enumerate(l)], counting from [i]. *)
Fixpoint enumerate_from {A : Type} (i : Z) (l : list A) : list (Z * A) :=
  match l with
  | [] => []
  | x :: rest => (i, x) :: enumerate_from (i + 1) rest
  end.

Section DrawCallDetails.

Variable rd : ActionFlags.

(** [rd.ResourceId.Null()] *)
Variable Null : ResourceId.

(** [str(resource_id)] *)
Variable str_rid : ResourceId -> string.

(** [ctx.GetAction(event_id)] *)
Variable GetAction : Z -> option ActionDescription.

(** The loop over [enumerate(action.outputs)]. *)
Definition list_outputs (action_outputs : list ResourceId) : list (Z * string) :=
  fold_left
    (fun acc (entry : Z * ResourceId) =>
       if negb (rid_eqb (snd entry) Null)
       then acc ++ [(fst entry, str_rid (snd entry))]
       else acc)
    (enumerate_from 0 action_outputs) [].

(** [ActionService.get_draw_call_details].  [frame_event] is the event the
    replay controller is at; the first component of the value is the event
    it is at after the call ([controller.SetFrameEvent(event_id, True)]). *)
Definition get_draw_call_details (capture_loaded : bool) (frame_event : Z)
    (event_id : Z) : Z * Result DrawDetails :=
  if negb capture_loaded then (frame_event, ValueError "No capture loaded")
  else
    let frame_event := event_id in
    match GetAction event_id with
    | None =>
      (frame_event,
       ValueError (String.append "No action at event " (fmt_d event_id)))
    | Some action =>
      (frame_event,
       Ok (mkDrawDetails
             (eventId (ad_action action)) (actionId (ad_action action))
             (name (ad_action action))
             (serialize_flags rd (flags (ad_action action)))
             (numIndices (ad_action action)) (numInstances (ad_action action))
             (baseVertex action) (vertexOffset action) (instanceOffset action)
             (indexOffset action)
             (list_outputs (outputs action))
             (if negb (rid_eqb (depthOut action) Null)
              then Some (str_rid (depthOut action)) else None)))
    end.

End DrawCallDetails.

(** ** serialize_variables *)

(** The members of [rd.VarType] that the code names.  A member is the
    value of the enumeration, or [None] when [rd.VarType] has no attribute
    of that name, in which case reading it raises. *)
Record VarTypes : Type := mkVarTypes {
  Float : option Z;
  Int : option Z;
  UInt : option Z
}.

(** The list stored under ["value"]. *)
Inductive VarValue (F : Type) : Type :=
| FloatValues (l : list F)
| IntValues (l : list Z).

Arguments FloatValues {F} l.
Arguments IntValues {F} l.

#[local] Unset Elimination Schemes.

(** A shader variable ([rd.ShaderVariable]); [F] is the type of the 32-bit
    floats, which are only copied.  [sv_type] is the value of [var.type];
    [f32v], [s32v] and [u32v] are what reading [var.value.f32v] and the
    like gives: the array, or the text of the exception raised on the
    way. *)
Inductive ShaderVariable (F : Type) : Type := mkShaderVariable {
  sv_name : string;
  sv_type : Z;
  sv_rows : nat;
  sv_columns : nat;
  f32v : Result (list F);
  s32v : Result (list Z);
  u32v : Result (list Z);
  members : list (ShaderVariable F)
}.

(** The dictionary [var_info]; [vi_value] and [vi_members] are [None] when
    the dictionary has no ["value"] or no ["members"] key. *)
Inductive VarInfo (F : Type) : Type := mkVarInfo {
  vi_name : string;
  vi_type : string;
  vi_rows : nat;
  vi_columns : nat;
  vi_value : option (VarValue F);
  vi_members : option (list (VarInfo F))
}.

#[local] Set Elimination Schemes.

Arguments mkShaderVariable {F}.
Arguments sv_name {F}.
Arguments sv_type {F}.
Arguments sv_rows {F}.
Arguments sv_columns {F}.
Arguments f32v {F}.
Arguments s32v {F}.
Arguments u32v {F}.
Arguments members {F}.
Arguments mkVarInfo {F}.
Arguments vi_name {F}.
Arguments vi_type {F}.
Arguments vi_rows {F}.
Arguments vi_columns {F}.
Arguments vi_value {F}.
Arguments vi_members {F}.

Section SerializeVariables.

Variable F : Type.

(** [rd.VarType] *)
Variable vt : VarTypes.

(** [str(var.type)] *)
Variable str_type : Z -> string.

(** [list(array[:count])] inside the [try] block: the entry stored under
    ["value"], or nothing when reading the array raised. *)
Definition slice_value {A : Type} (wrap : list A -> VarValue F)
    (count : nat) (array : Result (list A)) : option (VarValue F) :=
  match array with
  | Ok l => Some (wrap (firstn count l))
  | ValueError _ => None
  end.

(** The [try] block: the entry stored under ["value"], if any.  The
    conditions are evaluated in the order of the source, and an exception
    raised by one of them, or by reading the array, ends the block with
    nothing stored ([except Exception: pass]). *)
Definition try_value (ty : Z) (count : nat) (floats : Result (list F))
    (sints uints : Result (list Z)) : option (VarValue F) :=
  match Float vt with
  | None => None
  | Some float_type =>
    if ty =? float_type then slice_value FloatValues count floats
    else
      match Int vt with
      | None => None
      | Some int_type =>
        if ty =? int_type then slice_value IntValues count sints
        else
          match UInt vt with
          | None => None
          | Some uint_type =>
            if ty =? uint_type then slice_value IntValues count uints
            else None
          end
      end
  end.

(** One iteration of the loop of [serialize_variables]. *)
Fixpoint serialize_variable (var : ShaderVariable F) : VarInfo F :=
  match var with
  | mkShaderVariable nm ty rows columns floats sints uints mems =>
    mkVarInfo nm (str_type ty) rows columns
      (try_value ty (rows * columns) floats sints uints)
      (if nonempty mems then Some (map serialize_variable mems) else None)
  end.

Definition serialize_variables (variables : list (ShaderVariable F))
    : list (VarInfo F) :=
  map serialize_variable variables.

(** A variable and the variables nested in it, in pre-order. *)
Fixpoint variables_of (var : ShaderVariable F) : list (ShaderVariable F) :=
  match var with
  | mkShaderVariable _ _ _ _ _ _ _ mems => var :: flat_map variables_of mems
  end.

(** A dictionary and the dictionaries nested in it, in pre-order. *)
Fixpoint infos_of (info : VarInfo F) : list (VarInfo F) :=
  match info with
  | mkVarInfo _ _ _ _ _ mems =>
    info :: match mems with
            | Some ms => flat_map infos_of ms
            | None => []
            end
  end.

End SerializeVariables.

Section VariableInduction.

Variable F : Type.
Variable P : ShaderVariable F -> Prop.
Hypothesis step :
  forall nm ty rows columns floats sints uints mems,
    Forall P mems ->
    P (mkShaderVariable nm ty rows columns floats sints uints mems).

Fixpoint ShaderVariable_nested_ind (var : ShaderVariable F) : P var :=
  match var with
  | mkShaderVariable nm ty rows columns floats sints uints mems =>
    step nm ty rows columns floats sints uints mems
      ((fix all (l : list (ShaderVariable F)) : Forall P l :=
          match l with
          | [] => Forall_nil P
          | v :: vs => Forall_cons v (ShaderVariable_nested_ind v) (all vs)
          end) mems)
  end.

End VariableInduction.

(** ** list_captures *)

(** [s.endswith(suffix)] *)
Definition ends_with (suffix s : string) : bool :=
  (String.length suffix <=? String.length s)%nat &&
  String.eqb
    (substring (String.length s - String.length suffix) (String.length suffix) s)
    suffix.

(** What the file system answers about one name of [os.listdir(directory)]:
    [de_isfile] is [os.path.isfile(filepath)], [de_size] is [st_size] and
    [de_mtime] is [datetime.fromtimestamp(st_mtime).isoformat()]. *)
Record DirEntry : Type := mkDirEntry {
  de_filename : string;
  de_isfile : bool;
  de_size : Z;
  de_mtime : string
}.

(** An entry of [captures]. *)
Record CaptureInfo : Type := mkCaptureInfo {
  ci_filename : string;
  ci_path : string;
  ci_size_bytes : Z;
  ci_modified_time : string
}.

(** The dictionary that [list_captures] returns. *)
Record CaptureList : Type := mkCaptureList {
  cl_directory : string;
  cl_count : Z;
  cl_captures : list CaptureInfo
}.

(** [captures.sort(key=lambda x: x["modified_time"], reverse=True)]: the
    keys are the texts of the times and are compared as strings; the sort
    is stable, so its result is the one of inserting the entries, last one
    first, each before the first entry whose text is not greater than its
    own. *)
Fixpoint insert_descending (x : CaptureInfo) (sorted : list CaptureInfo)
    : list CaptureInfo :=
  match sorted with
  | [] => [x]
  | y :: ys =>
    if String.ltb (ci_modified_time x) (ci_modified_time y)
    then y :: insert_descending x ys
    else x :: y :: ys
  end.

Definition sort_descending (captures : list CaptureInfo) : list CaptureInfo :=
  fold_right insert_descending [] captures.

Section ListCaptures.

(** [os.path.join] *)
Variable path_join : string -> string -> string.

Definition capture_info (directory : string) (e : DirEntry) : CaptureInfo :=
  mkCaptureInfo (de_filename e) (path_join directory (de_filename e))
    (de_size e) (de_mtime e).

(** The loop over [os.listdir(directory)]. *)
Definition collect_captures (directory : string) (entries : list DirEntry)
    : list CaptureInfo :=
  fold_left
    (fun captures e =>
       if ends_with ".rdc" (lower (de_filename e))
       then if de_isfile e
            then captures ++ [capture_info directory e]
            else captures
       else captures)
    entries [].

(** [CaptureManager.list_captures].  [isdir] is [os.path.isdir(directory)];
    [listing] is what the file system answers inside the [try] block, or
    the text of the exception raised there. *)
Definition list_captures (directory : string) (isdir : bool)
    (listing : Result (list DirEntry)) : Result CaptureList :=
  if negb isdir
  then ValueError (String.append "Directory not found: " directory)
  else
    match listing with
    | ValueError e =>
      ValueError (String.append "Failed to list directory: " e)
    | Ok entries =>
      let captures := sort_descending (collect_captures directory entries) in
      Ok (mkCaptureList directory (Z.of_nat (List.length captures)) captures)
    end.

End ListCaptures.

(** An entry that [list_captures] keeps. *)
Definition is_capture_file (e : DirEntry) : bool :=
  ends_with ".rdc" (lower (de_filename e)) && de_isfile e.

(** [time_text_descends a b]: [a] may stand before [b] in the sorted list,
    the text of the time of [b] being, as a string, no greater than the
    one of [a]. *)
Definition time_text_descends (a b : CaptureInfo) : Prop :=
  String.leb (ci_modified_time b) (ci_modified_time a) = true.

(** The entries whose time has the text [t]. *)
Definition same_time_text (t : string) (c : CaptureInfo) : bool :=
  String.eqb (ci_modified_time c) t.

(** ** Induction over trees *)

Section TreeInduction.

Variable P : Action -> Prop.
Hypothesis step :
  forall eid aid nm fl ni ninst kids,
    Forall P kids -> P (mkAction eid aid nm fl ni ninst kids).

Fixpoint Action_forest_ind (a : Action) : P a :=
  match a with
  | mkAction eid aid nm fl ni ninst kids =>
    step eid aid nm fl ni ninst kids
      ((fix all (l : list Action) : Forall P l :=
          match l with
          | [] => Forall_nil P
          | k :: ks => Forall_cons k (Action_forest_ind k) (all ks)
          end) kids)
  end.

End TreeInduction.

Section ItemInduction.

Variable P : Item -> Prop.
Hypothesis step :
  forall eid aid nm fls ni ninst kids,
    (forall cs, kids = Some cs -> Forall P cs) ->
    P (mkItem eid aid nm fls ni ninst kids).

Fixpoint Item_forest_ind (it : Item) : P it :=
  match it with
  | mkItem eid aid nm fls ni ninst kids =>
    step eid aid nm fls ni ninst kids
      (match kids as o return (forall cs, o = Some cs -> Forall P cs) with
       | None => fun cs H => match H in (_ = y) return
                               (match y with None => True | Some _ => Forall P cs end)
                             with eq_refl => I end
       | Some l => fun cs H =>
           match H in (_ = y) return
             (match y with None => True | Some cs' => Forall P cs' end)
           with eq_refl =>
             (fix all (l : list Item) : Forall P l :=
                match l with
                | [] => Forall_nil P
                | k :: ks => Forall_cons k (Item_forest_ind k) (all ks)
                end) l
           end
       end)
  end.

End ItemInduction.

(** ** Basic facts *)

Lemma flat_map_nil {A B : Type} (f : A -> list B) (l : list A) :
  Forall (fun a => f a = []) l -> flat_map f l = [].
Proof.
  induction 1 as [|a l Ha _ IH]; simpl; [reflexivity|].
  now rewrite Ha, IH.
Qed.

Lemma flat_map_ext_Forall {A B : Type} (f g : A -> list B) (l : list A) :
  Forall (fun a => f a = g a) l -> flat_map f l = flat_map g l.
Proof.
  induction 1 as [|a l Ha _ IH]; simpl; [reflexivity|].
  now rewrite Ha, IH.
Qed.

Lemma nonempty_false {A : Type} (l : list A) : nonempty l = false -> l = [].
Proof. destruct l; [reflexivity|discriminate]. Qed.

Lemma nonempty_true {A : Type} (l : list A) :
  nonempty l = true -> exists x xs, l = x :: xs.
Proof. destruct l as [|x xs]; [discriminate|]. intros _. now exists x, xs. Qed.

(** [flatten_actions] lists a node before its subtree. *)
Lemma flatten_action_eq eid aid nm fl ni ninst kids :
  flatten_action (mkAction eid aid nm fl ni ninst kids) =
  mkAction eid aid nm fl ni ninst kids :: flatten_actions kids.
Proof.
  unfold flatten_actions. simpl. now destruct kids.
Qed.

Section Properties.

Variable rd : ActionFlags.

(** The recursive calls of the loop body are calls of [serialize_actions]. *)
Lemma serialize_action_eq cfg inm eid aid nm fl ni ninst kids :
  serialize_action rd cfg inm (mkAction eid aid nm fl ni ninst kids) =
  if excluded rd cfg nm fl then []
  else
    let in_matching := in_matching_at rd cfg inm nm fl in
    if only_actions cfg && is_marker rd fl then
      if include_children cfg && nonempty kids
      then serialize_actions rd cfg in_matching kids
      else []
    else if flags_rejected rd cfg fl then []
    else
      let children_result :=
        if include_children cfg && nonempty kids
        then serialize_actions rd cfg in_matching kids
        else [] in
      if (if is_marker rd fl
          then nonempty children_result && passes_marker_filter_at cfg in_matching
          else in_range_at rd cfg eid fl && passes_marker_filter_at cfg in_matching)
      then [mkItem eid aid nm (serialize_flags rd fl) ni ninst
              (children_field children_result)]
      else [].
Proof. reflexivity. Qed.

Lemma serialize_actions_cons cfg inm a l :
  serialize_actions rd cfg inm (a :: l) =
  serialize_action rd cfg inm a ++ serialize_actions rd cfg inm l.
Proof. reflexivity. Qed.

End Properties.

(** ** Empty ranges *)

Section EmptyRange.

Variable rd : ActionFlags.

Lemma empty_range_out_of_range cfg lo hi eid fl :
  event_id_min cfg = Some lo -> event_id_max cfg = Some hi -> lo > hi ->
  is_marker rd fl = false -> in_range_at rd cfg eid fl = false.
Proof.
  intros Hlo Hhi Hgt Hm. unfold in_range_at. rewrite Hm, Hlo, Hhi.
  destruct (eid <? lo) eqn:E1; [reflexivity|].
  destruct (eid >? hi) eqn:E2; [reflexivity|].
  apply Z.ltb_ge in E1. rewrite Z.gtb_ltb in E2. apply Z.ltb_ge in E2. lia.
Qed.

(** C7: when [event_id_min] is strictly greater than [event_id_max] the
    filter returns a value (it is a total function: nothing is raised); no
    non-marker is in range, whatever its event id; and the value returned
    is the empty sequence, for every forest and whatever the other fields
    of the configuration are. *)
Theorem empty_range_yields_nothing cfg lo hi :
  event_id_min cfg = Some lo -> event_id_max cfg = Some hi -> lo > hi ->
  (forall eid fl, is_marker rd fl = false -> in_range_at rd cfg eid fl = false)
  /\ (forall actions inm, serialize_actions rd cfg inm actions = []).
Proof.
  intros Hlo Hhi Hgt.
  split; [intros eid fl; now apply (empty_range_out_of_range cfg lo hi)|].
  intros actions inm. unfold serialize_actions.
  apply flat_map_nil, Forall_forall. intros a _. revert inm.
  induction a as [eid aid nm fl ni ninst kids IH] using Action_forest_ind.
  intros inm.
  assert (Hkids : forall m, serialize_actions rd cfg m kids = []).
  { intros m. apply flat_map_nil. revert IH. apply Forall_impl. auto. }
  rewrite serialize_action_eq.
  destruct (excluded rd cfg nm fl); [reflexivity|]. cbv zeta.
  rewrite !Hkids.
  destruct (is_marker rd fl) eqn:Hm.
  - rewrite andb_true_r.
    destruct (only_actions cfg); [now destruct (_ && _)|].
    destruct (flags_rejected rd cfg fl); [reflexivity|].
    now destruct (include_children cfg && nonempty kids).
  - rewrite andb_false_r.
    destruct (flags_rejected rd cfg fl); [reflexivity|].
    now rewrite (empty_range_out_of_range cfg lo hi eid fl Hlo Hhi Hgt Hm).
Qed.

End EmptyRange.

(** The same forest as in the scenarios of the specification, with a range
    whose bounds are swapped. *)
Lemma empty_range_yields_nothing_witness :
  serialize_actions renderdoc_flags
    (mkConfig true None None (Some 5) (Some 2) false None) false
    [mkAction 0 0 "A" 0x40 0 0 [mkAction 1 1 "Draw" 0x2 3 1 []];
     mkAction 2 2 "Draw" 0x2 3 1 []] = [].
Proof.
  apply (proj2 (empty_range_yields_nothing renderdoc_flags
                  (mkConfig true None None (Some 5) (Some 2) false None) 5 2
                  eq_refl eq_refl ltac:(lia))).
Defined.

(** ** The flag codec *)

Section FlagCodec.

Variable rd : ActionFlags.

Lemma collect_flags_filter fl table acc :
  collect_flags fl table acc =
  acc ++ map snd (filter (fun e => has_flag fl (fst e)) table).
Proof.
  unfold collect_flags. revert acc.
  induction table as [|e table IH]; intros acc; simpl.
  - now rewrite app_nil_r.
  - rewrite IH. destruct (has_flag fl (fst e)); simpl; [|reflexivity].
    now rewrite <- app_assoc.
Qed.

Lemma serialize_flags_filter fl :
  serialize_flags rd fl =
  map snd (filter (fun e => has_flag fl (fst e)) (flag_map rd)).
Proof. unfold serialize_flags. now rewrite collect_flags_filter. Qed.

Lemma has_flag_lor_unknown fl u b :
  Z.land u b = 0 -> has_flag (Z.lor fl u) b = has_flag fl b.
Proof.
  intros Hu. unfold has_flag.
  now rewrite Z.land_lor_distr_l, Hu, Z.lor_0_r.
Qed.

Lemma lor3_rotate a b c : Z.lor (Z.lor a b) c = Z.lor (Z.lor b c) a.
Proof. now rewrite (Z.lor_comm (Z.lor b c) a), Z.lor_assoc. Qed.

Lemma lor3_swap a b c : Z.lor (Z.lor a b) c = Z.lor (Z.lor b a) c.
Proof. now rewrite (Z.lor_comm a b). Qed.

(** C8: [serialize_flags] lists the names of the table entries whose bit is
    set, in the order of the table (so the result is a function of the
    bitmask alone); bits that no table entry tests change nothing; a bitmask
    in which the Drawcall, Indexed and Instanced entries test true and no
    other entry does gives exactly ["Drawcall"; "Indexed"; "Instanced"]; and
    the order in which three masks are or-ed together is irrelevant. *)
Theorem serialize_flags_table_order fl :
  serialize_flags rd fl =
    map snd (filter (fun e => has_flag fl (fst e)) (flag_map rd))
  /\ (forall u,
        (forall e, In e (flag_map rd) -> Z.land u (fst e) = 0) ->
        serialize_flags rd (Z.lor fl u) = serialize_flags rd fl)
  /\ (has_flag fl (Drawcall rd) = true ->
      has_flag fl (Indexed rd) = true ->
      has_flag fl (Instanced rd) = true ->
      (forall e, In e (flag_map rd) ->
                 ~ In (snd e) ["Drawcall"; "Indexed"; "Instanced"] ->
                 has_flag fl (fst e) = false) ->
      serialize_flags rd fl = ["Drawcall"; "Indexed"; "Instanced"])
  /\ (forall a b c,
        serialize_flags rd (Z.lor (Z.lor a b) c) =
          serialize_flags rd (Z.lor (Z.lor b c) a)
        /\ serialize_flags rd (Z.lor (Z.lor a b) c) =
          serialize_flags rd (Z.lor (Z.lor b a) c)).
Proof.
  split; [apply serialize_flags_filter|].
  split.
  { intros u Hu. rewrite !serialize_flags_filter. f_equal.
    apply filter_ext_in. intros e He.
    apply has_flag_lor_unknown. now apply Hu. }
  split.
  { intros HD HI HN Hother.
    rewrite serialize_flags_filter.
    rewrite (filter_ext_in (fun e => has_flag fl (fst e))
               (fun e => mem_string (snd e)
                           ["Drawcall"; "Indexed"; "Instanced"])
               (flag_map rd)); [reflexivity|].
    intros e He.
    destruct (mem_string (snd e) ["Drawcall"; "Indexed"; "Instanced"])
      eqn:Hmem.
    - unfold flag_map in He. cbn [In] in He.
      repeat (destruct He as [<-|He];
              [cbn [fst snd] in *;
               first [assumption | cbn in Hmem; discriminate]|]).
      destruct He.
    - apply Hother; [exact He|].
      intros Hin.
      assert (mem_string (snd e) ["Drawcall"; "Indexed"; "Instanced"] = true)
        as Habs; [|congruence].
      unfold mem_string. apply existsb_exists. exists (snd e).
      split; [exact Hin | apply String.eqb_refl]. }
  intros a b c. split.
  - now rewrite (lor3_rotate a b c).
  - now rewrite (lor3_swap a b c).
Qed.

End FlagCodec.

(** The mask Drawcall | Indexed | Instanced of the concrete table, with a
    bit (bit 30) that the table does not know. *)
Lemma serialize_flags_table_order_witness :
  serialize_flags renderdoc_flags (Z.lor 0x30002 0x40000000) =
  ["Drawcall"; "Indexed"; "Instanced"].
Proof.
  destruct (serialize_flags_table_order renderdoc_flags
              (Z.lor 0x30002 0x40000000)) as (_ & _ & Hthree & _).
  apply Hthree; try reflexivity.
  intros e Hin Hnot. cbn in Hin.
  repeat (destruct Hin as [<- | Hin];
          [first [reflexivity | exfalso; apply Hnot; cbn; tauto]|]).
  destruct Hin.
Defined.

(** ** The frame summary *)

Section FrameSummary.

Variable rd : ActionFlags.

Lemma has_flag_lor fl p s :
  has_flag fl (Z.lor p s) = has_flag fl p || has_flag fl s.
Proof.
  unfold has_flag. rewrite Z.land_lor_distr_r, <- negb_andb. f_equal.
  apply eq_true_iff_eq.
  rewrite andb_true_iff, !Z.eqb_eq. apply Z.lor_eq_0_iff.
Qed.

Lemma count_flags_total fl c :
  total_actions (count_flags rd fl c) = total_actions c.
Proof.
  unfold count_flags.
  repeat match goal with |- context [if ?b then _ else _] => destruct b end;
    reflexivity.
Qed.

Lemma count_flags_draw_calls fl c :
  draw_calls (stats (count_flags rd fl c)) =
  draw_calls (stats c) + (if has_flag fl (Drawcall rd) then 1 else 0).
Proof.
  unfold count_flags.
  destruct (has_flag fl (Drawcall rd));
    repeat match goal with |- context [if ?b then _ else _] => destruct b end;
    simpl; lia.
Qed.

Lemma count_flags_markers fl c :
  markers (stats (count_flags rd fl c)) =
  markers (stats c) +
  (if has_flag fl (PushMarker rd) || has_flag fl (SetMarker rd) then 1 else 0).
Proof.
  unfold count_flags. rewrite has_flag_lor.
  destruct (has_flag fl (PushMarker rd) || has_flag fl (SetMarker rd));
    repeat match goal with |- context [if ?b then _ else _] => destruct b end;
    simpl; lia.
Qed.

Lemma count_children_fold l :
  Forall (fun k => count_children k =
                   Z.of_nat (List.length (flatten_actions (children k)))) l ->
  forall acc,
    fold_left (fun count child => count + 1 + count_children child) l acc =
    acc + Z.of_nat (List.length (flatten_actions l)).
Proof.
  induction 1 as [|k l Hk _ IH]; intros acc; cbn [fold_left].
  - cbn. lia.
  - rewrite IH, Hk. unfold flatten_actions at 3. cbn [flat_map].
    fold (flatten_actions l). rewrite length_app.
    destruct k as [e a n f i j ks]. rewrite flatten_action_eq.
    cbn [children List.length]. lia.
Qed.

(** [count_children] counts every node below [action]. *)
Lemma count_children_flatten action :
  count_children action =
  Z.of_nat (List.length (flatten_actions (children action))).
Proof.
  induction action as [eid aid nm fl ni ninst kids IH] using Action_forest_ind.
  cbn [count_children children].
  destruct kids as [|k ks]; [reflexivity|]. cbn [nonempty].
  now rewrite (count_children_fold (k :: ks) IH 0).
Qed.

(** C9: for a forest made of one root marker named "Pass1", whose
    PushMarker bit is set, with two childless draw calls (Drawcall bit set,
    no marker bit) as its whole subtree, the summary has the single
    top-level marker ("Pass1", its event id, child_count 2), counts one
    marker and two draw calls, and three actions in all; and [child_count]
    is, for every node, the number of nodes below it at any depth. *)
Theorem frame_summary_pass1 api textures buffers
    eid aid mfl ni ninst e1 a1 n1 f1 i1 j1 e2 a2 n2 f2 i2 j2 :
  has_flag mfl (PushMarker rd) = true ->
  has_flag mfl (Drawcall rd) = false ->
  has_flag f1 (Drawcall rd) = true ->
  has_flag f2 (Drawcall rd) = true ->
  is_marker rd f1 = false ->
  is_marker rd f2 = false ->
  let summary :=
    get_frame_summary rd api textures buffers
      [mkAction eid aid "Pass1" mfl ni ninst
         [mkAction e1 a1 n1 f1 i1 j1 []; mkAction e2 a2 n2 f2 i2 j2 []]] in
  sum_top_level_markers summary = [mkTopMarker "Pass1" eid 2]
  /\ markers (sum_statistics summary) = 1
  /\ draw_calls (sum_statistics summary) = 2
  /\ sum_total_actions summary = 3
  /\ (forall action,
        count_children action =
        Z.of_nat (List.length (flatten_actions (children action)))).
Proof.
  intros Hpush Hnodraw Hd1 Hd2 Hm1 Hm2 summary. subst summary.
  unfold is_marker, is_push_marker, is_set_marker, is_pop_marker in Hm1, Hm2.
  apply orb_false_iff in Hm1. destruct Hm1 as [Hm1 _].
  apply orb_false_iff in Hm1. destruct Hm1 as [Hp1 Hs1].
  apply orb_false_iff in Hm2. destruct Hm2 as [Hm2 _].
  apply orb_false_iff in Hm2. destruct Hm2 as [Hp2 Hs2].
  unfold get_frame_summary, count_actions, top_level_markers. cbn.
  rewrite Hpush. repeat split.
  - repeat (first [rewrite count_flags_markers | progress cbn]).
    rewrite Hpush, Hp1, Hs1, Hp2, Hs2. reflexivity.
  - repeat (first [rewrite count_flags_draw_calls | progress cbn]).
    rewrite Hnodraw, Hd1, Hd2. reflexivity.
  - repeat (first [rewrite count_flags_total | progress cbn]). reflexivity.
  - apply count_children_flatten.
Qed.

End FrameSummary.

(** A pass with an indexed draw and an instanced draw. *)
Lemma frame_summary_pass1_witness :
  let summary :=
    get_frame_summary renderdoc_flags "D3D11" 4 7
      [mkAction 10 0 "Pass1" 0x40 0 0
         [mkAction 11 1 "DrawIndexed(36)" 0x10002 36 1 [];
          mkAction 12 2 "DrawInstanced(3, 8)" 0x20002 3 8 []]] in
  sum_top_level_markers summary = [mkTopMarker "Pass1" 10 2]
  /\ markers (sum_statistics summary) = 1
  /\ draw_calls (sum_statistics summary) = 2
  /\ sum_total_actions summary = 3.
Proof.
  destruct (frame_summary_pass1 renderdoc_flags "D3D11" 4 7 10 0 0x40 0 0
              11 1 "DrawIndexed(36)" 0x10002 36 1
              12 2 "DrawInstanced(3, 8)" 0x20002 3 8
              eq_refl eq_refl eq_refl eq_refl eq_refl eq_refl)
    as (Htop & Hmarkers & Hdraws & Htotal & _).
  repeat split; assumption.
Defined.

(** ** Markers in the output *)

Section MarkerItems.

Variable rd : ActionFlags.

Lemma mem_string_map_filter (n : string) (p : Z * string -> bool) table :
  mem_string n (map snd (filter p table)) =
  existsb (fun e => String.eqb n (snd e) && p e) table.
Proof.
  unfold mem_string. induction table as [|e table IH]; simpl; [reflexivity|].
  destruct (p e); simpl; rewrite IH.
  - now rewrite andb_true_r.
  - now rewrite andb_false_r.
Qed.

Lemma serialize_flags_push fl :
  mem_string "PushMarker" (serialize_flags rd fl) = is_push_marker rd fl.
Proof.
  rewrite serialize_flags_filter, mem_string_map_filter. cbn.
  now rewrite orb_false_r.
Qed.

Lemma serialize_flags_set fl :
  mem_string "SetMarker" (serialize_flags rd fl) = is_set_marker rd fl.
Proof.
  rewrite serialize_flags_filter, mem_string_map_filter. cbn.
  now rewrite orb_false_r.
Qed.

Lemma serialize_flags_pop fl :
  mem_string "PopMarker" (serialize_flags rd fl) = is_pop_marker rd fl.
Proof.
  rewrite serialize_flags_filter, mem_string_map_filter. cbn.
  now rewrite orb_false_r.
Qed.

(** A dictionary names a marker category exactly when the action it was
    built from is a marker. *)
Lemma item_is_marker_serialized eid aid nm fl ni ninst kids :
  item_is_marker (mkItem eid aid nm (serialize_flags rd fl) ni ninst kids) =
  is_marker rd fl.
Proof.
  unfold item_is_marker, is_marker. cbn [item_flags].
  now rewrite serialize_flags_push, serialize_flags_set, serialize_flags_pop.
Qed.

Lemma not_marker_not_push fl : is_marker rd fl = false -> is_push_marker rd fl = false.
Proof.
  unfold is_marker. intros H.
  apply orb_false_iff in H. destruct H as [H _].
  apply orb_false_iff in H. tauto.
Qed.

Lemma excluded_not_marker cfg nm fl :
  is_marker rd fl = false -> excluded rd cfg nm fl = false.
Proof.
  intros H. unfold excluded. now rewrite H, andb_false_r.
Qed.

Lemma in_matching_not_marker cfg inm nm fl :
  is_marker rd fl = false -> in_matching_at rd cfg inm nm fl = inm.
Proof.
  intros H. unfold in_matching_at.
  now rewrite (not_marker_not_push fl H), andb_false_r.
Qed.

End MarkerItems.

(** ** Runs without children *)

Section WithoutChildren.

Variable rd : ActionFlags.

Lemma serialize_action_flat cfg inm a :
  include_children cfg = false ->
  serialize_action rd cfg inm a =
  if passes_at_root rd cfg inm a then [project_flat rd a] else [].
Proof.
  intros Hinc. destruct a as [eid aid nm fl ni ninst kids].
  rewrite serialize_action_eq. unfold passes_at_root, project_flat.
  cbn [flags eventId actionId name numIndices numInstances].
  rewrite Hinc. cbn [andb nonempty].
  destruct (is_marker rd fl) eqn:Hm.
  - cbn [negb andb]. rewrite andb_true_r.
    destruct (excluded rd cfg nm fl); [reflexivity|].
    destruct (only_actions cfg); [reflexivity|].
    now destruct (flags_rejected rd cfg fl).
  - rewrite (excluded_not_marker rd cfg nm fl Hm), andb_false_r.
    rewrite (in_matching_not_marker rd cfg inm nm fl Hm).
    cbn [negb andb].
    destruct (flags_rejected rd cfg fl); [reflexivity|]. cbn [negb andb].
    now destruct (in_range_at rd cfg eid fl && passes_marker_filter_at cfg inm).
Qed.

Lemma has_flag_false x y : has_flag x y = false <-> Z.land x y = 0.
Proof.
  unfold has_flag. rewrite negb_false_iff. apply Z.eqb_eq.
Qed.

Lemma is_marker_false fl :
  is_marker rd fl = false <->
  Z.land fl (PushMarker rd) = 0 /\ Z.land fl (SetMarker rd) = 0 /\
  Z.land fl (PopMarker rd) = 0.
Proof.
  unfold is_marker, is_push_marker, is_set_marker, is_pop_marker.
  rewrite !orb_false_iff, !has_flag_false. tauto.
Qed.

Lemma mem_string_In f l : mem_string f l = true <-> In f l.
Proof.
  unfold mem_string. rewrite existsb_exists. split.
  - intros (g & Hg & Heq). apply String.eqb_eq in Heq. now subst g.
  - intros Hin. exists f. split; [exact Hin | apply String.eqb_refl].
Qed.

Lemma flags_rejected_false cfg fl :
  is_marker rd fl = false ->
  (flags_rejected rd cfg fl = false <->
   forall wanted,
     flags_filter cfg = Some wanted -> wanted <> [] ->
     exists f, In f (serialize_flags rd fl) /\ In f wanted).
Proof.
  intros Hm. unfold flags_rejected. rewrite Hm. cbn [negb].
  destruct (flags_filter cfg) as [[|w ws]|]; cbn [list_truthy nonempty andb opt_list].
  - split; [|reflexivity]. intros _ wanted Heq Hne.
    injection Heq as <-. now destruct Hne.
  - rewrite negb_false_iff, existsb_exists. split.
    + intros (f & Hf & Hmem) wanted Heq _. injection Heq as <-.
      exists f. split; [exact Hf | now apply mem_string_In].
    + intros H. destruct (H (w :: ws) eq_refl) as (f & Hf & Hin);
        [discriminate|].
      exists f. split; [exact Hf | now apply mem_string_In].
  - split; [|reflexivity]. intros _ wanted Heq. discriminate Heq.
Qed.

Lemma in_range_at_true cfg eid fl :
  is_marker rd fl = false ->
  (in_range_at rd cfg eid fl = true <->
   (forall lo, event_id_min cfg = Some lo -> lo <= eid) /\
   (forall hi, event_id_max cfg = Some hi -> eid <= hi)).
Proof.
  intros Hm. unfold in_range_at. rewrite Hm.
  rewrite andb_true_iff, !negb_true_iff.
  destruct (event_id_min cfg) as [lo|], (event_id_max cfg) as [hi|];
    rewrite ?Z.gtb_ltb, ?Z.ltb_ge; split.
  - intros [H1 H2]. split; intros x Heq; injection Heq as <-; assumption.
  - intros [H1 H2]. split; [now apply H1 | now apply H2].
  - intros [H1 _]. split; intros x Heq; [injection Heq as <-; assumption
                                        | discriminate Heq].
  - intros [H1 _]. split; [now apply H1 | reflexivity].
  - intros [_ H2]. split; intros x Heq; [discriminate Heq
                                        | injection Heq as <-; assumption].
  - intros [_ H2]. split; [reflexivity | now apply H2].
  - intros _. split; intros x Heq; discriminate Heq.
  - intros _. split; reflexivity.
Qed.

Lemma passes_marker_filter_at_true cfg inm :
  passes_marker_filter_at cfg inm = true <->
  forall mf, marker_filter cfg = Some mf -> mf <> "" -> inm = true.
Proof.
  unfold passes_marker_filter_at.
  destruct (marker_filter cfg) as [mf|]; cbn [str_truthy].
  - rewrite negb_involutive. destruct (String.eqb_spec mf "") as [->|Hne].
    + split; [|reflexivity]. intros _ mf Heq Hne.
      injection Heq as <-. now destruct Hne.
    + cbn [orb]. split.
      * intros -> ? _ _. reflexivity.
      * intros H. now apply (H mf).
  - split; [|reflexivity]. intros _ mf Heq. discriminate Heq.
Qed.

Lemma passes_at_root_spec cfg inm a :
  passes_at_root rd cfg inm a = true <-> root_action_passes rd cfg inm a.
Proof.
  unfold passes_at_root, root_action_passes.
  rewrite !andb_true_iff, !negb_true_iff. split.
  - intros [[[Hm Hfl] Hr] Hs].
    pose proof (proj1 (flags_rejected_false cfg _ Hm) Hfl) as Hwanted.
    destruct (proj1 (in_range_at_true cfg _ _ Hm) Hr) as [Hlo Hhi].
    pose proof (proj1 (passes_marker_filter_at_true cfg inm) Hs) as Hscope.
    destruct (proj1 (is_marker_false _) Hm) as (Hp & Hs' & Hpop).
    repeat (split; [assumption|]). exact Hscope.
  - intros (Hp & Hs' & Hpop & Hlo & Hhi & Hfl & Hs).
    assert (Hm : is_marker rd (flags a) = false)
      by (apply is_marker_false; auto).
    repeat split.
    + exact Hm.
    + now apply (flags_rejected_false cfg _ Hm).
    + apply (in_range_at_true cfg _ _ Hm). now split.
    + now apply passes_marker_filter_at_true.
Qed.

(** C10: with [include_children] false the output is the sequence of the
    root actions that are not markers and pass the category, range and
    scope filters, each projected without a ["children"] key, in the
    original order; it holds no marker, and nothing below the roots.  The
    test that selects the root actions is the one that the words say: no
    marker bit, an event id within the configured bounds, a flag name of
    the configured [flags_filter], and, under a [marker_filter], a run
    entered inside a matching marker. *)
Theorem without_children_flat cfg :
  include_children cfg = false ->
  forall inm actions,
    let out := serialize_actions rd cfg inm actions in
    out = map (project_flat rd) (filter (passes_at_root rd cfg inm) actions)
    /\ (forall a,
          passes_at_root rd cfg inm a = true <->
          root_action_passes rd cfg inm a)
    /\ all_items out = out
    /\ Forall (fun it => item_is_marker it = false /\ item_children it = None)
         out.
Proof.
  intros Hinc inm actions out.
  assert (Hout : out = map (project_flat rd)
                         (filter (passes_at_root rd cfg inm) actions)).
  { subst out. unfold serialize_actions.
    induction actions as [|a l IH]; [reflexivity|]. simpl.
    rewrite IH, (serialize_action_flat cfg inm a Hinc).
    now destruct (passes_at_root rd cfg inm a). }
  split; [exact Hout|]. split; [intros a; apply passes_at_root_spec|].
  rewrite Hout. clear Hout out. split.
  - unfold all_items.
    induction (filter (passes_at_root rd cfg inm) actions) as [|a l IH];
      [reflexivity|].
    simpl. now rewrite IH.
  - apply Forall_forall. intros it Hit. apply in_map_iff in Hit.
    destruct Hit as (a & <- & Ha). apply filter_In in Ha.
    destruct Ha as [_ Hpass]. split; [|reflexivity].
    unfold project_flat. rewrite item_is_marker_serialized.
    unfold passes_at_root in Hpass.
    destruct (is_marker rd (flags a)); [discriminate|reflexivity].
Qed.

End WithoutChildren.

(** The forest of the scenarios, serialized without children: the marker
    and the draw below it are gone, the root draw stays. *)
Lemma without_children_flat_witness :
  serialize_actions renderdoc_flags (unset_config false) false
    [mkAction 0 0 "A" 0x40 0 0 [mkAction 1 1 "Draw" 0x2 3 1 []];
     mkAction 2 2 "Draw" 0x2 3 1 []]
  = [mkItem 2 2 "Draw" ["Drawcall"] 3 1 None].
Proof.
  exact (proj1 (without_children_flat renderdoc_flags
                  (unset_config false) eq_refl false
                  [mkAction 0 0 "A" 0x40 0 0 [mkAction 1 1 "Draw" 0x2 3 1 []];
                   mkAction 2 2 "Draw" 0x2 3 1 []])).
Defined.

(** ** Where the dictionaries of an output come from *)

Lemma NoDup_map_injective {A B : Type} (f : A -> B) (l : list A) x y :
  NoDup (map f l) -> In x l -> In y l -> f x = f y -> x = y.
Proof.
  induction l as [|a l IH]; simpl; [tauto|].
  intros Hnd Hx Hy Hxy. inversion Hnd as [|? ? Hnotin Hnd']; subst.
  destruct Hx as [->|Hx], Hy as [->|Hy]; auto.
  - exfalso. apply Hnotin. rewrite Hxy. now apply in_map.
  - exfalso. apply Hnotin. rewrite <- Hxy. now apply in_map.
Qed.

Lemma all_items_app l1 l2 : all_items (l1 ++ l2) = all_items l1 ++ all_items l2.
Proof. apply flat_map_app. Qed.

Lemma all_items_single eid aid nm fls ni ninst cr :
  all_items [mkItem eid aid nm fls ni ninst (children_field cr)] =
  mkItem eid aid nm fls ni ninst (children_field cr) :: all_items cr.
Proof.
  unfold all_items, children_field. simpl. rewrite app_nil_r.
  now destruct cr.
Qed.

Ltac nothing_in_nil :=
  let H := fresh "Hnil" in intros H; exact (match (H : False) with end).

Section Origin.

Variable rd : ActionFlags.

Lemma in_all_items_serialize_actions cfg inm l it :
  In it (all_items (serialize_actions rd cfg inm l)) ->
  exists k, In k l /\ In it (all_items (serialize_action rd cfg inm k)).
Proof.
  induction l as [|k l IH]; [simpl; tauto|].
  rewrite serialize_actions_cons, all_items_app, in_app_iff.
  intros [H|H].
  - exists k. split; [now left | exact H].
  - destruct (IH H) as (k' & Hk' & Hit). exists k'.
    split; [now right | exact Hit].
Qed.

Lemma children_result_nonempty cfg inm kids :
  nonempty (children_result_of rd cfg inm kids) = true ->
  kids <> [] /\ children_result_of rd cfg inm kids <> [] /\
  children_result_of rd cfg inm kids = serialize_actions rd cfg inm kids.
Proof.
  unfold children_result_of.
  destruct (include_children cfg); cbn [andb]; [|discriminate].
  destruct kids as [|k kids]; [discriminate|]. cbn [nonempty].
  intros H. repeat split; [discriminate|].
  intros E. rewrite E in H. discriminate.
Qed.

Lemma serialize_action_origin cfg a :
  forall inm it,
    In it (all_items (serialize_action rd cfg inm a)) ->
    has_origin rd cfg (flatten_action a) it.
Proof.
  induction a as [eid aid nm fl ni ninst kids IH] using Action_forest_ind.
  assert (Hkids : forall m it,
             In it (all_items (serialize_actions rd cfg m kids)) ->
             has_origin rd cfg (flatten_actions kids) it).
  { intros m it Hit.
    destruct (in_all_items_serialize_actions cfg m kids it Hit) as (k & Hk & Hin).
    rewrite Forall_forall in IH.
    destruct (IH k Hk m it Hin) as (a & inm' & Ha & Hrest).
    exists a, inm'. split; [|exact Hrest].
    unfold flatten_actions. apply in_flat_map. eauto. }
  assert (Hbelow : forall m it,
             In it (all_items (children_result_of rd cfg m kids)) ->
             has_origin rd cfg
               (flatten_action (mkAction eid aid nm fl ni ninst kids)) it).
  { intros m it Hit. unfold children_result_of in Hit.
    destruct (include_children cfg && nonempty kids); [|simpl in Hit; destruct Hit].
    destruct (Hkids m it Hit) as (a & inm' & Ha & Hrest).
    exists a, inm'. split; [|exact Hrest].
    rewrite flatten_action_eq. now right. }
  intros inm it. rewrite serialize_action_eq.
  cbv zeta.
  fold (children_result_of rd cfg (in_matching_at rd cfg inm nm fl) kids).
  destruct (excluded rd cfg nm fl) eqn:Hex; [nothing_in_nil|].
  destruct (only_actions cfg && is_marker rd fl); [apply Hbelow|].
  destruct (flags_rejected rd cfg fl); [nothing_in_nil|].
  set (inm' := in_matching_at rd cfg inm nm fl).
  destruct (is_marker rd fl) eqn:Hm.
  - destruct (nonempty (children_result_of rd cfg inm' kids)) eqn:Hne;
      cbn [andb]; [|nothing_in_nil].
    destruct (passes_marker_filter_at cfg inm'); [|nothing_in_nil].
    rewrite all_items_single. intros [<-|Hit]; [|now apply (Hbelow inm')].
    exists (mkAction eid aid nm fl ni ninst kids), inm'.
    split; [rewrite flatten_action_eq; now left|].
    split; [reflexivity|]. split; [exact Hex|]. intros _. cbn [children].
    destruct (children_result_nonempty cfg inm' kids Hne) as (H1 & H2 & _).
    now split.
  - destruct (in_range_at rd cfg eid fl && passes_marker_filter_at cfg inm');
      [|nothing_in_nil].
    rewrite all_items_single. intros [<-|Hit]; [|now apply (Hbelow inm')].
    exists (mkAction eid aid nm fl ni ninst kids), inm'.
    split; [rewrite flatten_action_eq; now left|].
    split; [reflexivity|]. split; [exact Hex|]. cbn [flags]. congruence.
Qed.

Lemma serialize_actions_origin cfg inm actions it :
  In it (all_items (serialize_actions rd cfg inm actions)) ->
  has_origin rd cfg (flatten_actions actions) it.
Proof.
  intros Hit.
  destruct (in_all_items_serialize_actions cfg inm actions it Hit)
    as (k & Hk & Hin).
  destruct (serialize_action_origin cfg k inm it Hin) as (a & inm' & Ha & Hrest).
  exists a, inm'. split; [|exact Hrest].
  unfold flatten_actions. apply in_flat_map. eauto.
Qed.

End Origin.

(** ** Markers are emitted only around surviving children *)

Section MarkersNeedChildren.

Variable rd : ActionFlags.

Lemma nonempty_iff {A : Type} (l : list A) : l <> [] -> nonempty l = true.
Proof. destruct l; [congruence|reflexivity]. Qed.

(** C5: every marker dictionary of an output, at any depth, carries a
    non-empty ["children"] list, which is the recursively filtered children
    of the marker node it was built from; so, event ids being unique, a
    marker whose event id occurs in the output has children and has
    filtered children, whatever the configuration: a marker without
    children, or whose filtered children are empty, is absent. *)
Theorem marker_items_have_children cfg inm actions :
  let out := serialize_actions rd cfg inm actions in
  (forall it,
      In it (all_items out) -> item_is_marker it = true ->
      (exists c cs, item_children it = Some (c :: cs)) /\
      (exists a inm',
          In a (flatten_actions actions) /\ emitted_from rd cfg a inm' it /\
          children a <> [] /\
          item_children it = Some (serialize_actions rd cfg inm' (children a))))
  /\ (NoDup (map eventId (flatten_actions actions)) ->
      forall m,
        In m (flatten_actions actions) -> is_marker rd (flags m) = true ->
        In (eventId m) (map event_id (all_items out)) ->
        children m <> [] /\
        exists inm', serialize_actions rd cfg inm' (children m) <> []).
Proof.
  intros out.
  assert (Hitem : forall it,
             In it (all_items out) ->
             exists a inm',
               In a (flatten_actions actions) /\ emitted_from rd cfg a inm' it /\
               (is_marker rd (flags a) = true ->
                children a <> [] /\
                serialize_actions rd cfg inm' (children a) <> [] /\
                item_children it =
                  Some (serialize_actions rd cfg inm' (children a)))).
  { intros it Hit.
    destruct (serialize_actions_origin rd cfg inm actions it Hit)
      as (a & inm' & Ha & Hem & _ & Hmark).
    exists a, inm'. split; [exact Ha|]. split; [exact Hem|].
    intros Hm. destruct (Hmark Hm) as [Hkids Hcr].
    pose proof (nonempty_iff _ Hcr) as Hne.
    pose proof (children_result_nonempty rd cfg inm' (children a) Hne)
      as (_ & _ & Heq).
    split; [exact Hkids|]. split; [now rewrite <- Heq|].
    rewrite Hem. cbn [item_children]. unfold children_field.
    now rewrite Hne, Heq. }
  split.
  - intros it Hit Hm.
    destruct (Hitem it Hit) as (a & inm' & Ha & Hem & Hmark).
    assert (Hma : is_marker rd (flags a) = true).
    { rewrite Hem, item_is_marker_serialized in Hm. exact Hm. }
    destruct (Hmark Hma) as (Hkids & Hne & Hch). split.
    + rewrite Hch.
      destruct (serialize_actions rd cfg inm' (children a)) as [|c cs];
        [congruence|]. now exists c, cs.
    + now exists a, inm'.
  - intros Hnd m Hin Hm Hid. apply in_map_iff in Hid.
    destruct Hid as (it & Heid & Hit).
    destruct (Hitem it Hit) as (a & inm' & Ha & Hem & Hmark).
    assert (a = m) as ->.
    { apply (NoDup_map_injective eventId (flatten_actions actions));
        try assumption.
      rewrite <- Heid, Hem. reflexivity. }
    destruct (Hmark Hm) as (Hkids & Hne & _).
    split; [exact Hkids|]. now exists inm'.
Qed.

End MarkersNeedChildren.

(** With every field unset, a lone marker (event id 5) next to a draw call
    (event id 6) is not in the output. *)
Lemma marker_items_have_children_witness :
  ~ In 5 (map event_id
            (all_items
               (serialize_actions renderdoc_flags (unset_config true) false
                  [mkAction 5 0 "Empty" 0x40 0 0 [];
                   mkAction 6 1 "Draw" 0x2 3 1 []]))).
Proof.
  intros Hin.
  destruct (marker_items_have_children renderdoc_flags (unset_config true)
              false
              [mkAction 5 0 "Empty" 0x40 0 0 [];
               mkAction 6 1 "Draw" 0x2 3 1 []]) as [_ Habsent].
  destruct (Habsent
              ltac:(cbn; repeat constructor; cbn; intuition discriminate)
              (mkAction 5 0 "Empty" 0x40 0 0 [])
              ltac:(cbn; tauto) eq_refl Hin) as [Hkids _].
  now apply Hkids.
Defined.

(** ** The configuration with nothing set *)

Lemma flat_map_singletons {A B : Type} (f : A -> list B) (g : A -> B) l :
  Forall (fun a => f a = [g a]) l -> flat_map f l = map g l.
Proof.
  induction 1 as [|a l Ha _ IH]; simpl; [reflexivity|].
  now rewrite Ha, IH.
Qed.

Lemma nonempty_map {A B : Type} (g : A -> B) l :
  nonempty (map g l) = nonempty l.
Proof. now destruct l. Qed.

Section NothingSet.

Variable rd : ActionFlags.

Lemma in_range_unbounded cfg eid fl :
  event_id_min cfg = None -> event_id_max cfg = None ->
  in_range_at rd cfg eid fl = true.
Proof.
  intros Hlo Hhi. unfold in_range_at. rewrite Hlo, Hhi.
  now destruct (is_marker rd fl).
Qed.

Lemma serialize_action_unset a :
  no_childless_marker rd a = true ->
  forall inm,
    serialize_action rd (unset_config true) inm a = [project_tree rd a].
Proof.
  induction a as [eid aid nm fl ni ninst kids IH] using Action_forest_ind.
  intros Hwf inm. cbn [no_childless_marker] in Hwf.
  apply andb_true_iff in Hwf. destruct Hwf as [Hhere Hkids].
  assert (Hrec : forall m,
             serialize_actions rd (unset_config true) m kids =
             map (project_tree rd) kids).
  { intros m. apply flat_map_singletons.
    rewrite forallb_forall in Hkids. rewrite Forall_forall in IH |- *.
    intros k Hk. apply IH; auto. }
  rewrite serialize_action_eq. cbn [project_tree].
  unfold excluded, flags_rejected, passes_marker_filter_at.
  cbn [unset_config exclude_markers flags_filter marker_filter only_actions
       include_children list_truthy str_truthy andb negb orb].
  rewrite (in_range_unbounded (unset_config true) eid fl eq_refl eq_refl).
  rewrite Hrec, !andb_true_r.
  replace (if nonempty kids then map (project_tree rd) kids else [])
    with (map (project_tree rd) kids) by now destruct kids.
  rewrite nonempty_map.
  destruct (is_marker rd fl); [|reflexivity].
  cbn [andb negb] in Hhere. apply negb_true_iff, negb_false_iff in Hhere.
  now rewrite Hhere.
Qed.

(** C3 (amended): with every optional field unset and children included,
    a forest in which no marker, at any depth, is without children is
    serialized to its full projection: same shape, same field values in
    every node, nothing dropped. *)
Theorem unset_config_projects_forest actions inm :
  forallb (no_childless_marker rd) actions = true ->
  serialize_actions rd (unset_config true) inm actions =
  map (project_tree rd) actions.
Proof.
  intros Hwf. apply flat_map_singletons, Forall_forall. intros a Ha.
  rewrite forallb_forall in Hwf. now apply serialize_action_unset, Hwf.
Qed.

End NothingSet.

Lemma unset_config_projects_forest_witness :
  serialize_actions renderdoc_flags (unset_config true) false
    [mkAction 0 0 "A" 0x40 0 0 [mkAction 1 1 "Draw" 0x2 3 1 []];
     mkAction 2 2 "Draw" 0x2 3 1 []]
  = [mkItem 0 0 "A" ["PushMarker"] 0 0
       (Some [mkItem 1 1 "Draw" ["Drawcall"] 3 1 None]);
     mkItem 2 2 "Draw" ["Drawcall"] 3 1 None].
Proof.
  exact (unset_config_projects_forest renderdoc_flags
           [mkAction 0 0 "A" 0x40 0 0 [mkAction 1 1 "Draw" 0x2 3 1 []];
            mkAction 2 2 "Draw" 0x2 3 1 []] false eq_refl).
Defined.

(** C3 as stated fails: a SetMarker has no children, so it is dropped even
    though nothing is configured, and the output is not the projection of
    the forest. *)
Lemma unset_config_drops_childless_marker :
  let forest := [mkAction 7 0 "Checkpoint" 0x20 0 0 [];
                 mkAction 8 1 "Draw" 0x2 3 1 []] in
  serialize_actions renderdoc_flags (unset_config true) false forest
    = [mkItem 8 1 "Draw" ["Drawcall"] 3 1 None]
  /\ serialize_actions renderdoc_flags (unset_config true) false forest
     <> map (project_tree renderdoc_flags) forest.
Proof.
  split; [reflexivity|]. cbv. discriminate.
Qed.

(** ** The matching scope *)

Section MatchingScope.

Variable rd : ActionFlags.

Lemma in_matching_latched cfg nm fl : in_matching_at rd cfg true nm fl = true.
Proof. unfold in_matching_at. now destruct (_ && _). Qed.

Lemma in_matching_unfiltered cfg inm nm fl :
  str_truthy (marker_filter cfg) = false ->
  in_matching_at rd cfg inm nm fl = inm.
Proof. intros H. unfold in_matching_at. now rewrite H. Qed.

Lemma visits_latched cfg inm l m d :
  visits rd cfg inm l m d -> inm = true -> m = true.
Proof.
  induction 1 as [inm l a _ _ | inm l a m d _ _ _ IH]; intros ->.
  - apply in_matching_latched.
  - apply IH, in_matching_latched.
Qed.

(** Inside a matching scope the marker filter constrains nothing any more,
    at any depth. *)
Lemma serialize_action_in_scope cfg a :
  serialize_action rd cfg true a =
  serialize_action rd (without_marker_filter cfg) true a.
Proof.
  induction a as [eid aid nm fl ni ninst kids IH] using Action_forest_ind.
  assert (Hkids : serialize_actions rd cfg true kids =
                  serialize_actions rd (without_marker_filter cfg) true kids).
  { apply flat_map_ext_Forall. exact IH. }
  rewrite !serialize_action_eq. cbv zeta.
  rewrite in_matching_latched.
  rewrite (in_matching_unfiltered (without_marker_filter cfg) true nm fl eq_refl).
  unfold passes_marker_filter_at. rewrite !orb_true_r, <- Hkids.
  reflexivity.
Qed.

(** Every dictionary of an output was built from a visited node, with the
    flag computed at that node; under an active marker filter that flag is
    true. *)
Lemma serialize_action_visits cfg a :
  forall inm l it,
    In a l ->
    In it (all_items (serialize_action rd cfg inm a)) ->
    exists d m, visits rd cfg inm l m d /\ emitted_from rd cfg d m it /\
                (str_truthy (marker_filter cfg) = true -> m = true).
Proof.
  induction a as [eid aid nm fl ni ninst kids IH] using Action_forest_ind.
  intros inm l it Hal. rewrite serialize_action_eq. cbv zeta.
  fold (children_result_of rd cfg (in_matching_at rd cfg inm nm fl) kids).
  set (inm' := in_matching_at rd cfg inm nm fl).
  set (node := mkAction eid aid nm fl ni ninst kids) in *.
  assert (Hbelow : recurses rd cfg node = true ->
             In it (all_items (children_result_of rd cfg inm' kids)) ->
             exists d m, visits rd cfg inm l m d /\ emitted_from rd cfg d m it /\
                         (str_truthy (marker_filter cfg) = true -> m = true)).
  { intros Hrec Hit. unfold children_result_of in Hit.
    destruct (include_children cfg && nonempty kids);
      [|exact (match (Hit : False) with end)].
    destruct (in_all_items_serialize_actions rd cfg inm' kids it Hit)
      as (k & Hk & Hin).
    rewrite Forall_forall in IH.
    destruct (IH k Hk inm' kids it Hk Hin) as (d & m & Hv & Hrest).
    exists d, m. split; [|exact Hrest].
    now apply (visits_below rd cfg inm l node m d). }
  assert (Hrecurses : excluded rd cfg nm fl = false ->
             (only_actions cfg && is_marker rd fl) ||
             negb (flags_rejected rd cfg fl) = true ->
             In it (all_items (children_result_of rd cfg inm' kids)) ->
             recurses rd cfg node = true).
  { intros Hex Hbr Hit. unfold recurses. subst node.
    cbn [name flags children]. rewrite Hex, Hbr. unfold children_result_of in Hit.
    destruct (include_children cfg && nonempty kids); [reflexivity|].
    exact (match (Hit : False) with end). }
  destruct (excluded rd cfg nm fl) eqn:Hex; [nothing_in_nil|].
  destruct (only_actions cfg && is_marker rd fl) eqn:Hoa.
  { intros Hit. apply Hbelow; [|exact Hit]. now apply Hrecurses. }
  destruct (flags_rejected rd cfg fl) eqn:Hfr; [nothing_in_nil|].
  assert (Hhere : forall pass,
             pass && passes_marker_filter_at cfg inm' = true ->
             In it (all_items
                      [mkItem eid aid nm (serialize_flags rd fl) ni ninst
                         (children_field (children_result_of rd cfg inm' kids))]) ->
             exists d m, visits rd cfg inm l m d /\ emitted_from rd cfg d m it /\
                         (str_truthy (marker_filter cfg) = true -> m = true)).
  { intros pass Hpass. rewrite all_items_single. intros [<-|Hit].
    - exists node, inm'. split; [now apply (visits_here rd cfg inm l node)|].
      split; [reflexivity|]. intros Hmf.
      apply andb_true_iff in Hpass. destruct Hpass as [_ Hpass].
      unfold passes_marker_filter_at in Hpass. now rewrite Hmf in Hpass.
    - apply Hbelow; [|exact Hit]. now apply Hrecurses. }
  destruct (is_marker rd fl).
  - destruct (nonempty (children_result_of rd cfg inm' kids) &&
              passes_marker_filter_at cfg inm') eqn:Hpass; [|nothing_in_nil].
    now apply (Hhere _ Hpass).
  - destruct (in_range_at rd cfg eid fl && passes_marker_filter_at cfg inm')
      eqn:Hpass; [|nothing_in_nil].
    now apply (Hhere _ Hpass).
Qed.

Lemma push_marker_is_marker fl : is_push_marker rd fl = true -> is_marker rd fl = true.
Proof. intros H. unfold is_marker. now rewrite H. Qed.

Lemma serialize_leaf cfg inm eid aid nm fl ni ninst :
  is_marker rd fl = false ->
  serialize_action rd cfg inm (mkAction eid aid nm fl ni ninst []) =
  if negb (flags_rejected rd cfg fl) && in_range_at rd cfg eid fl &&
     passes_marker_filter_at cfg inm
  then [mkItem eid aid nm (serialize_flags rd fl) ni ninst None]
  else [].
Proof.
  intros Hm. rewrite serialize_action_eq. cbv zeta.
  rewrite (excluded_not_marker rd cfg nm fl Hm), Hm, !andb_false_r.
  rewrite (in_matching_not_marker rd cfg inm nm fl Hm).
  destruct (flags_rejected rd cfg fl); [reflexivity|]. cbn [negb andb].
  now destruct (in_range_at rd cfg eid fl && passes_marker_filter_at cfg inm).
Qed.

(** The first scenario of the specification: the draw call below the marker
    "A" is kept inside it, the draw call next to the marker is not. *)
Lemma marker_filter_scenario e0 a0 pfl i0 j0 a1 n1 dfl i1 j1 a2 n2 i2 j2 :
  is_push_marker rd pfl = true -> is_marker rd dfl = false ->
  serialize_actions rd (mkConfig true (Some "A") None None None false None) false
    [mkAction e0 a0 "A" pfl i0 j0 [mkAction 1 a1 n1 dfl i1 j1 []];
     mkAction 2 a2 n2 dfl i2 j2 []]
  = [mkItem e0 a0 "A" (serialize_flags rd pfl) i0 j0
       (Some [mkItem 1 a1 n1 (serialize_flags rd dfl) i1 j1 None])].
Proof.
  intros Hpush Hdraw.
  pose proof (push_marker_is_marker pfl Hpush) as Hmark.
  set (cfg := mkConfig true (Some "A") None None None false None).
  assert (Hin : in_matching_at rd cfg false "A" pfl = true).
  { unfold in_matching_at. cbn [cfg marker_filter str_truthy opt_string].
    now rewrite Hpush. }
  unfold serialize_actions. cbn [flat_map].
  rewrite serialize_action_eq. unfold serialize_actions. cbn [flat_map].
  rewrite Hin, !(serialize_leaf cfg) by exact Hdraw.
  unfold excluded, flags_rejected, passes_marker_filter_at, in_range_at.
  rewrite Hmark, Hdraw.
  cbn [cfg exclude_markers flags_filter marker_filter only_actions
       include_children event_id_min event_id_max list_truthy str_truthy
       opt_list opt_string andb negb orb nonempty app existsb children_field
       String.eqb Ascii.eqb Bool.eqb].
  reflexivity.
Qed.

(** C4: [in_matching] is a one-way latch.  A node that inherits [true]
    computes [true], whatever its flags (a PopMarker included); a PushMarker
    whose name contains the configured [marker_filter] computes [true]; and
    every node visited in a call that was entered with [true], so every
    descendant of a node at which [true] was computed, is visited with
    [true].  In such a call the marker filter constrains nothing, and under
    an active marker filter every dictionary of an output comes from a node
    visited with [true].  In the scenario forest with [marker_filter = "A"]
    the output is the marker "A" around the draw call with event id 1; the
    root draw call with event id 2 is left out. *)
Theorem in_matching_is_a_latch :
  (forall cfg nm fl, in_matching_at rd cfg true nm fl = true)
  /\ (forall cfg inm nm fl,
        str_truthy (marker_filter cfg) = true ->
        is_push_marker rd fl = true ->
        contains (opt_string (marker_filter cfg)) nm = true ->
        in_matching_at rd cfg inm nm fl = true)
  /\ (forall cfg l m d, visits rd cfg true l m d -> m = true)
  /\ (forall cfg inm l a,
        visits rd cfg inm l true a ->
        forall m d, visits rd cfg true (children a) m d -> m = true)
  /\ (forall cfg l,
        serialize_actions rd cfg true l =
        serialize_actions rd (without_marker_filter cfg) true l)
  /\ (forall cfg inm l it,
        In it (all_items (serialize_actions rd cfg inm l)) ->
        exists d m, visits rd cfg inm l m d /\ emitted_from rd cfg d m it /\
                    (str_truthy (marker_filter cfg) = true -> m = true))
  /\ (forall e0 a0 pfl i0 j0 a1 n1 dfl i1 j1 a2 n2 i2 j2,
        is_push_marker rd pfl = true -> is_marker rd dfl = false ->
        serialize_actions rd
          (mkConfig true (Some "A") None None None false None) false
          [mkAction e0 a0 "A" pfl i0 j0 [mkAction 1 a1 n1 dfl i1 j1 []];
           mkAction 2 a2 n2 dfl i2 j2 []]
        = [mkItem e0 a0 "A" (serialize_flags rd pfl) i0 j0
             (Some [mkItem 1 a1 n1 (serialize_flags rd dfl) i1 j1 None])]).
Proof.
  split; [exact in_matching_latched|].
  split.
  { intros cfg inm nm fl Hmf Hpush Hin. unfold in_matching_at.
    now rewrite Hmf, Hpush, Hin. }
  split; [intros cfg l m d Hv; now apply (visits_latched cfg true l m d)|].
  split; [intros cfg inm l a _ m d Hv;
          now apply (visits_latched cfg true (children a) m d)|].
  split.
  { intros cfg l. apply flat_map_ext_Forall, Forall_forall.
    intros a _. apply serialize_action_in_scope. }
  split; [|exact marker_filter_scenario].
  intros cfg inm l it Hit.
  destruct (in_all_items_serialize_actions rd cfg inm l it Hit) as (k & Hk & Hin).
  exact (serialize_action_visits cfg k inm l it Hk Hin).
Qed.

End MatchingScope.

(** The scenario on the concrete table. *)
Lemma in_matching_is_a_latch_witness :
  serialize_actions renderdoc_flags
    (mkConfig true (Some "A") None None None false None) false
    [mkAction 0 0 "A" 0x40 0 0 [mkAction 1 1 "Draw" 0x2 3 1 []];
     mkAction 2 2 "Draw" 0x2 3 1 []]
  = [mkItem 0 0 "A" ["PushMarker"] 0 0
       (Some [mkItem 1 1 "Draw" ["Drawcall"] 3 1 None])].
Proof.
  destruct (in_matching_is_a_latch renderdoc_flags)
    as (_ & _ & _ & _ & _ & _ & Hscenario).
  exact (Hscenario 0 0 0x40 0 0 1 "Draw" 0x2 3 1 2 "Draw" 3 1 eq_refl eq_refl).
Defined.

(** ** The event-id range *)

Section RangeFilter.

Variable rd : ActionFlags.

Lemma in_range_marker cfg eid fl :
  is_marker rd fl = true -> in_range_at rd cfg eid fl = true.
Proof. intros Hm. unfold in_range_at. now rewrite Hm. Qed.

Lemma in_range_leaf inc lo hi eid fl :
  is_marker rd fl = false ->
  in_range_at rd (range_config inc lo hi) eid fl = within_range lo hi eid.
Proof.
  intros Hm. unfold in_range_at, within_range. rewrite Hm.
  cbn [range_config event_id_min event_id_max].
  destruct lo as [l|], hi as [h|]; cbn [negb andb];
    rewrite ?Z.gtb_ltb, <- ?Z.leb_antisym; reflexivity.
Qed.

Lemma serialize_marker_range inc lo hi inm eid aid nm fl ni ninst kids :
  is_marker rd fl = true ->
  serialize_action rd (range_config inc lo hi) inm
    (mkAction eid aid nm fl ni ninst kids) =
  match children_result_of rd (range_config inc lo hi) inm kids with
  | [] => []
  | c :: cs => [mkItem eid aid nm (serialize_flags rd fl) ni ninst (Some (c :: cs))]
  end.
Proof.
  intros Hm. rewrite serialize_action_eq. cbv zeta.
  rewrite (in_matching_unfiltered rd (range_config inc lo hi) inm nm fl eq_refl).
  fold (children_result_of rd (range_config inc lo hi) inm kids).
  unfold excluded, flags_rejected, passes_marker_filter_at. rewrite Hm.
  cbn [range_config exclude_markers flags_filter marker_filter only_actions
       list_truthy str_truthy andb negb orb].
  rewrite andb_true_r. unfold children_field.
  now destruct (children_result_of rd (range_config inc lo hi) inm kids).
Qed.

Lemma serialize_leaf_range inc lo hi inm eid aid nm fl ni ninst kids :
  is_marker rd fl = false ->
  serialize_action rd (range_config inc lo hi) inm
    (mkAction eid aid nm fl ni ninst kids) =
  if within_range lo hi eid
  then [mkItem eid aid nm (serialize_flags rd fl) ni ninst
          (children_field
             (children_result_of rd (range_config inc lo hi) inm kids))]
  else [].
Proof.
  intros Hm. rewrite serialize_action_eq. cbv zeta.
  rewrite (in_matching_unfiltered rd (range_config inc lo hi) inm nm fl eq_refl).
  fold (children_result_of rd (range_config inc lo hi) inm kids).
  rewrite (in_range_leaf inc lo hi eid fl Hm).
  unfold excluded, flags_rejected, passes_marker_filter_at. rewrite Hm.
  cbn [range_config exclude_markers flags_filter marker_filter only_actions
       list_truthy str_truthy andb negb orb].
  now rewrite andb_true_r.
Qed.

(** C6: the range test is true for every marker whatever its event id; in a
    run that filters by range only, a marker is emitted exactly when its
    filtered children are not empty, and then around exactly them, while a
    non-marker is emitted exactly when its event id lies in the inclusive
    range.  In the scenario forest with [event_id_min = 2] the output is the
    single root draw call with event id 2. *)
Theorem range_applies_to_leaves_only :
  (forall cfg eid fl, is_marker rd fl = true -> in_range_at rd cfg eid fl = true)
  /\ (forall inc lo hi inm eid aid nm fl ni ninst kids,
        is_marker rd fl = true ->
        let node := mkAction eid aid nm fl ni ninst kids in
        let cfg := range_config inc lo hi in
        (serialize_action rd cfg inm node = [] <->
         children_result_of rd cfg inm kids = [])
        /\ serialize_action rd cfg inm node =
           match children_result_of rd cfg inm kids with
           | [] => []
           | c :: cs =>
             [mkItem eid aid nm (serialize_flags rd fl) ni ninst (Some (c :: cs))]
           end)
  /\ (forall inc lo hi inm eid aid nm fl ni ninst kids,
        is_marker rd fl = false ->
        let cfg := range_config inc lo hi in
        serialize_action rd cfg inm (mkAction eid aid nm fl ni ninst kids) =
        if within_range lo hi eid
        then [mkItem eid aid nm (serialize_flags rd fl) ni ninst
                (children_field (children_result_of rd cfg inm kids))]
        else [])
  /\ (forall e0 a0 n0 pfl i0 j0 a1 n1 dfl i1 j1 a2 n2 i2 j2,
        is_push_marker rd pfl = true -> is_marker rd dfl = false ->
        serialize_actions rd (range_config true (Some 2) None) false
          [mkAction e0 a0 n0 pfl i0 j0 [mkAction 1 a1 n1 dfl i1 j1 []];
           mkAction 2 a2 n2 dfl i2 j2 []]
        = [mkItem 2 a2 n2 (serialize_flags rd dfl) i2 j2 None]).
Proof.
  split; [exact in_range_marker|].
  split.
  { intros inc lo hi inm eid aid nm fl ni ninst kids Hm node cfg.
    subst node cfg.
    pose proof (serialize_marker_range inc lo hi inm eid aid nm fl ni ninst
                  kids Hm) as Heq.
    split; [|exact Heq]. rewrite Heq.
    destruct (children_result_of rd (range_config inc lo hi) inm kids);
      split; intros H; try reflexivity; discriminate. }
  split.
  { intros inc lo hi inm eid aid nm fl ni ninst kids Hm cfg.
    now apply serialize_leaf_range. }
  intros e0 a0 n0 pfl i0 j0 a1 n1 dfl i1 j1 a2 n2 i2 j2 Hpush Hdraw.
  pose proof (push_marker_is_marker rd pfl Hpush) as Hmark.
  unfold serialize_actions. cbn [flat_map].
  rewrite (serialize_marker_range true (Some 2) None false e0 a0 n0 pfl i0 j0
             _ Hmark).
  unfold children_result_of, serialize_actions. cbn [flat_map].
  rewrite !serialize_leaf_range by exact Hdraw.
  reflexivity.
Qed.

End RangeFilter.

(** The second scenario on the concrete table. *)
Lemma range_applies_to_leaves_only_witness :
  serialize_actions renderdoc_flags (range_config true (Some 2) None) false
    [mkAction 0 0 "A" 0x40 0 0 [mkAction 1 1 "Draw" 0x2 3 1 []];
     mkAction 2 2 "Draw" 0x2 3 1 []]
  = [mkItem 2 2 "Draw" ["Drawcall"] 3 1 None].
Proof.
  destruct (range_applies_to_leaves_only renderdoc_flags)
    as (_ & _ & _ & Hscenario).
  exact (Hscenario 0 0 "A" 0x40 0 0 1 "Draw" 0x2 3 1 2 "Draw" 3 1
           eq_refl eq_refl).
Defined.

(** ** Dropping the markers *)

Lemma leaf_ids_app l1 l2 : leaf_ids (l1 ++ l2) = leaf_ids l1 ++ leaf_ids l2.
Proof.
  unfold leaf_ids. now rewrite all_items_app, filter_app, map_app.
Qed.

Lemma leaf_ids_item eid aid nm fls ni ninst kids :
  leaf_ids [mkItem eid aid nm fls ni ninst kids] =
  (if item_is_marker (mkItem eid aid nm fls ni ninst kids) then [] else [eid])
  ++ leaf_ids (opt_list kids).
Proof.
  unfold leaf_ids, all_items. cbn [flat_map items_of]. rewrite app_nil_r.
  cbn [filter]. unfold opt_list.
  destruct (item_is_marker (mkItem eid aid nm fls ni ninst kids));
    destruct kids; reflexivity.
Qed.

Lemma opt_list_children_field (cr : list Item) :
  opt_list (children_field cr) = cr.
Proof. now destruct cr. Qed.

Lemma splice_markers_app l1 l2 :
  splice_markers (l1 ++ l2) = splice_markers l1 ++ splice_markers l2.
Proof. apply flat_map_app. Qed.

Lemma splice_item_eq eid aid nm fls ni ninst kids :
  splice_item (mkItem eid aid nm fls ni ninst kids) =
  if item_is_marker (mkItem eid aid nm fls ni ninst kids)
  then splice_markers (opt_list kids)
  else [mkItem eid aid nm fls ni ninst
          (children_field (splice_markers (opt_list kids)))].
Proof. destruct kids; reflexivity. Qed.

Lemma leaf_ids_flat_map_incl {A : Type} (f g : A -> list Item) l :
  Forall (fun a => incl (leaf_ids (f a)) (leaf_ids (g a))) l ->
  incl (leaf_ids (flat_map f l)) (leaf_ids (flat_map g l)).
Proof.
  induction 1 as [|a l Ha _ IH]; cbn [flat_map]; [apply incl_refl|].
  rewrite !leaf_ids_app. now apply incl_app_app.
Qed.

(** Splicing the markers away keeps the leaf actions, in order. *)
Lemma leaf_ids_splice out : leaf_ids (splice_markers out) = leaf_ids out.
Proof.
  induction out as [|it out IH]; [reflexivity|].
  change (it :: out) with ([it] ++ out).
  rewrite splice_markers_app, !leaf_ids_app, IH. f_equal. clear IH out.
  induction it as [eid aid nm fls ni ninst kids IH] using Item_forest_ind.
  assert (Hkids : leaf_ids (splice_markers (opt_list kids)) =
                  leaf_ids (opt_list kids)).
  { destruct kids as [cs|]; [|reflexivity]. cbn [opt_list].
    specialize (IH cs eq_refl).
    induction IH as [|c cs Hc _ IHcs]; [reflexivity|].
    change (c :: cs) with ([c] ++ cs).
    rewrite splice_markers_app, !leaf_ids_app, IHcs. f_equal.
    rewrite <- Hc. unfold splice_markers. cbn [flat_map].
    now rewrite app_nil_r. }
  unfold splice_markers. cbn [flat_map]. rewrite app_nil_r, splice_item_eq.
  rewrite (leaf_ids_item eid aid nm fls ni ninst kids).
  destruct (item_is_marker (mkItem eid aid nm fls ni ninst kids)) eqn:Hm.
  - exact Hkids.
  - rewrite leaf_ids_item, opt_list_children_field, Hkids.
    unfold item_is_marker in *. cbn [item_flags] in *. now rewrite Hm.
Qed.

Section OnlyActions.

Variable rd : ActionFlags.

Lemma flags_rejected_marker cfg fl :
  is_marker rd fl = true -> flags_rejected rd cfg fl = false.
Proof.
  intros Hm. unfold flags_rejected. now rewrite Hm, andb_false_r.
Qed.

Lemma passes_unfiltered cfg inm :
  str_truthy (marker_filter cfg) = false ->
  passes_marker_filter_at cfg inm = true.
Proof. intros H. unfold passes_marker_filter_at. now rewrite H. Qed.

(** What the two runs compute at one node, in terms of their filtered
    children. *)
Lemma serialize_action_keeping cfg inm eid aid nm fl ni ninst kids :
  serialize_action rd (with_only_actions false cfg) inm
    (mkAction eid aid nm fl ni ninst kids) =
  let inm' := in_matching_at rd cfg inm nm fl in
  let cr := children_result_of rd (with_only_actions false cfg) inm' kids in
  if excluded rd cfg nm fl then []
  else if flags_rejected rd cfg fl then []
  else if (if is_marker rd fl then nonempty cr else in_range_at rd cfg eid fl)
          && passes_marker_filter_at cfg inm'
  then [mkItem eid aid nm (serialize_flags rd fl) ni ninst (children_field cr)]
  else [].
Proof.
  rewrite serialize_action_eq. cbv zeta.
  change (excluded rd (with_only_actions false cfg) nm fl)
    with (excluded rd cfg nm fl).
  destruct (excluded rd cfg nm fl); [reflexivity|].
  now destruct (is_marker rd fl).
Qed.

Lemma serialize_action_dropping cfg inm eid aid nm fl ni ninst kids :
  serialize_action rd (with_only_actions true cfg) inm
    (mkAction eid aid nm fl ni ninst kids) =
  let inm' := in_matching_at rd cfg inm nm fl in
  let cr := children_result_of rd (with_only_actions true cfg) inm' kids in
  if excluded rd cfg nm fl then []
  else if is_marker rd fl then cr
  else if flags_rejected rd cfg fl then []
  else if in_range_at rd cfg eid fl && passes_marker_filter_at cfg inm'
  then [mkItem eid aid nm (serialize_flags rd fl) ni ninst (children_field cr)]
  else [].
Proof.
  rewrite serialize_action_eq. cbv zeta.
  change (excluded rd (with_only_actions true cfg) nm fl)
    with (excluded rd cfg nm fl).
  destruct (excluded rd cfg nm fl); [reflexivity|].
  now destruct (is_marker rd fl).
Qed.

Lemma children_result_lift (P : list Item -> list Item -> Prop) cfg1 cfg2 kids :
  include_children cfg1 = include_children cfg2 ->
  P [] [] ->
  (forall m, P (serialize_actions rd cfg1 m kids)
               (serialize_actions rd cfg2 m kids)) ->
  forall m, P (children_result_of rd cfg1 m kids)
              (children_result_of rd cfg2 m kids).
Proof.
  intros Hinc Hnil Hall m. unfold children_result_of. rewrite Hinc.
  destruct (include_children cfg2 && nonempty kids); auto.
Qed.

(** Without a marker filter, the run that drops the markers returns the
    output of the run that keeps them, with the markers spliced away. *)
Lemma serialize_action_splice cfg a :
  str_truthy (marker_filter cfg) = false ->
  forall inm,
    serialize_action rd (with_only_actions true cfg) inm a =
    splice_markers (serialize_action rd (with_only_actions false cfg) inm a).
Proof.
  intros Hmf.
  induction a as [eid aid nm fl ni ninst kids IH] using Action_forest_ind.
  intros inm.
  assert (Hcr : forall m,
             children_result_of rd (with_only_actions true cfg) m kids =
             splice_markers
               (children_result_of rd (with_only_actions false cfg) m kids)).
  { apply (children_result_lift (fun t f => t = splice_markers f));
      [reflexivity | reflexivity |].
    intros m. unfold serialize_actions.
    induction IH as [|k ks Hk _ IHks]; [reflexivity|]. cbn [flat_map].
    now rewrite splice_markers_app, Hk, IHks. }
  rewrite serialize_action_dropping, serialize_action_keeping. cbv zeta.
  rewrite Hcr, !(passes_unfiltered cfg _ Hmf), !andb_true_r.
  set (cr := children_result_of rd (with_only_actions false cfg)
               (in_matching_at rd cfg inm nm fl) kids).
  destruct (excluded rd cfg nm fl); [reflexivity|].
  destruct (is_marker rd fl) eqn:Hm.
  - rewrite (flags_rejected_marker cfg fl Hm).
    destruct (nonempty cr) eqn:Hne.
    + unfold splice_markers at 2. cbn [flat_map].
      rewrite app_nil_r, splice_item_eq, item_is_marker_serialized, Hm.
      now rewrite opt_list_children_field.
    + now rewrite (nonempty_false cr Hne).
  - destruct (flags_rejected rd cfg fl); [reflexivity|].
    destruct (in_range_at rd cfg eid fl); [|reflexivity].
    unfold splice_markers at 2. cbn [flat_map].
    rewrite app_nil_r, splice_item_eq, item_is_marker_serialized, Hm.
    now rewrite opt_list_children_field.
Qed.

(** With or without a marker filter, a leaf action that the run keeping the
    markers emits is emitted by the run dropping them. *)
Lemma serialize_action_leaves_incl cfg a :
  forall inm,
    incl (leaf_ids (serialize_action rd (with_only_actions false cfg) inm a))
         (leaf_ids (serialize_action rd (with_only_actions true cfg) inm a)).
Proof.
  induction a as [eid aid nm fl ni ninst kids IH] using Action_forest_ind.
  intros inm.
  assert (Hcr : forall m,
             incl (leaf_ids (children_result_of rd
                               (with_only_actions false cfg) m kids))
                  (leaf_ids (children_result_of rd
                               (with_only_actions true cfg) m kids))).
  { apply (children_result_lift (fun f t => incl (leaf_ids f) (leaf_ids t)));
      [reflexivity | apply incl_refl |].
    intros m. apply leaf_ids_flat_map_incl. revert IH.
    apply Forall_impl. auto. }
  rewrite serialize_action_dropping, serialize_action_keeping. cbv zeta.
  set (inm' := in_matching_at rd cfg inm nm fl).
  specialize (Hcr inm').
  destruct (excluded rd cfg nm fl); [apply incl_refl|].
  destruct (is_marker rd fl) eqn:Hm.
  - rewrite (flags_rejected_marker cfg fl Hm).
    destruct (_ && _); [|intros x []].
    rewrite leaf_ids_item, item_is_marker_serialized, Hm.
    now rewrite opt_list_children_field.
  - destruct (flags_rejected rd cfg fl); [apply incl_refl|].
    destruct (_ && _); [|apply incl_refl].
    rewrite !leaf_ids_item, !item_is_marker_serialized, Hm.
    rewrite !opt_list_children_field.
    apply incl_app_app; [apply incl_refl | exact Hcr].
Qed.

(** C1 (amended): every leaf action in the output of a run with
    [only_actions] false is in the output of the run with [only_actions]
    true and the other fields unchanged; and when no [marker_filter] is
    configured the second output is the first one with its marker
    dictionaries removed and their children moved one level up, so that
    both hold the same leaf actions, in the same order. *)
Theorem only_actions_keeps_leaves cfg inm actions :
  let keeping := serialize_actions rd (with_only_actions false cfg) inm actions in
  let dropping := serialize_actions rd (with_only_actions true cfg) inm actions in
  incl (leaf_ids keeping) (leaf_ids dropping)
  /\ (str_truthy (marker_filter cfg) = false ->
      dropping = splice_markers keeping /\
      leaf_ids dropping = leaf_ids keeping).
Proof.
  intros keeping dropping. split.
  - apply leaf_ids_flat_map_incl, Forall_forall. intros a _.
    apply serialize_action_leaves_incl.
  - intros Hmf.
    assert (Heq : dropping = splice_markers keeping).
    { subst keeping dropping. unfold serialize_actions.
      induction actions as [|a l IH]; [reflexivity|]. cbn [flat_map].
      now rewrite splice_markers_app, IH, (serialize_action_splice cfg a Hmf). }
    split; [exact Heq|]. rewrite Heq. apply leaf_ids_splice.
Qed.

End OnlyActions.

(** Without a marker filter: the scenario forest, with and without its
    marker. *)
Lemma only_actions_keeps_leaves_witness :
  serialize_actions renderdoc_flags
    (with_only_actions true (unset_config true)) false
    [mkAction 0 0 "A" 0x40 0 0 [mkAction 1 1 "Draw" 0x2 3 1 []];
     mkAction 2 2 "Draw" 0x2 3 1 []]
  = splice_markers
      (serialize_actions renderdoc_flags
         (with_only_actions false (unset_config true)) false
         [mkAction 0 0 "A" 0x40 0 0 [mkAction 1 1 "Draw" 0x2 3 1 []];
          mkAction 2 2 "Draw" 0x2 3 1 []]).
Proof.
  exact (proj1 (proj2 (only_actions_keeps_leaves renderdoc_flags
                         (unset_config true) false
                         [mkAction 0 0 "A" 0x40 0 0
                            [mkAction 1 1 "Draw" 0x2 3 1 []];
                          mkAction 2 2 "Draw" 0x2 3 1 []]) eq_refl)).
Defined.

(** C1 as stated fails under a marker filter: the marker "Scene" is outside
    the matching scope, so the run that keeps markers drops it together
    with the matching marker "A" below it, while the run that drops markers
    reaches "A" and emits its draw call. *)
Lemma only_actions_changes_leaves :
  let forest :=
    [mkAction 0 0 "Scene" 0x40 0 0
       [mkAction 1 1 "A" 0x40 0 0 [mkAction 2 2 "Draw" 0x2 3 1 []]]] in
  let cfg := mkConfig true (Some "A") None None None false None in
  serialize_actions renderdoc_flags (with_only_actions false cfg) false forest
    = []
  /\ serialize_actions renderdoc_flags (with_only_actions true cfg) false forest
     = [mkItem 2 2 "Draw" ["Drawcall"] 3 1 None]
  /\ leaf_ids
       (serialize_actions renderdoc_flags (with_only_actions true cfg) false
          forest)
     <> leaf_ids
          (serialize_actions renderdoc_flags (with_only_actions false cfg)
             false forest).
Proof.
  split; [reflexivity|]. split; [reflexivity|]. cbv. discriminate.
Qed.

(** ** Suppressed subtrees *)

Lemma NoDup_app_disjoint {A : Type} (l1 l2 : list A) x :
  NoDup (l1 ++ l2) -> In x l1 -> ~ In x l2.
Proof.
  induction l1 as [|a l1 IH]; simpl; [tauto|].
  intros Hnd Hin. inversion Hnd as [|? ? Hnotin Hnd']; subst.
  destruct Hin as [->|Hin]; [|now apply IH].
  intros Hx. apply Hnotin, in_or_app. now right.
Qed.

Lemma Permutation_flat_map_split {A B : Type} (f g h : A -> list B) l :
  Forall (fun a => Permutation (f a) (g a ++ h a)) l ->
  Permutation (flat_map f l) (flat_map g l ++ flat_map h l).
Proof.
  induction 1 as [|a l Ha _ IH]; cbn [flat_map]; [constructor|].
  rewrite Ha, IH, <- !app_assoc. apply Permutation_app_head.
  rewrite !app_assoc. apply Permutation_app_tail, Permutation_app_comm.
Qed.

Lemma map_flat_map_comm {A B C : Type} (f : B -> C) (g : A -> list B) l :
  map f (flat_map g l) = flat_map (fun a => map f (g a)) l.
Proof.
  induction l as [|a l IH]; cbn [flat_map]; [reflexivity|].
  now rewrite map_app, IH.
Qed.

Lemma flat_map_compose {A B C : Type} (g : B -> list C) (f : A -> list B) l :
  flat_map g (flat_map f l) = flat_map (fun a => flat_map g (f a)) l.
Proof.
  induction l as [|a l IH]; cbn [flat_map]; [reflexivity|].
  now rewrite flat_map_app, IH.
Qed.

Lemma flat_map_incl_pointwise {A B : Type} (f g : A -> list B) l :
  Forall (fun a => incl (f a) (g a)) l -> incl (flat_map f l) (flat_map g l).
Proof.
  induction 1 as [|a l Ha _ IH]; cbn [flat_map]; [apply incl_refl|].
  now apply incl_app_app.
Qed.

Section Exclusion.

Variable rd : ActionFlags.

Lemma excluded_suppressed cfg a :
  excluded rd cfg (name a) (flags a) = suppressed rd cfg a.
Proof.
  unfold excluded, suppressed.
  destruct (exclude_markers cfg) as [[|ex exs]|]; cbn [list_truthy nonempty opt_list existsb andb];
    try reflexivity; now rewrite ?andb_false_r.
Qed.

Lemma surviving_ids_of_eq cfg eid aid nm fl ni ninst kids :
  surviving_ids_of rd cfg (mkAction eid aid nm fl ni ninst kids) =
  if suppressed rd cfg (mkAction eid aid nm fl ni ninst kids) then []
  else eid :: flat_map (surviving_ids_of rd cfg) kids.
Proof. reflexivity. Qed.

Lemma suppressed_ids_of_eq cfg eid aid nm fl ni ninst kids :
  suppressed_ids_of rd cfg (mkAction eid aid nm fl ni ninst kids) =
  if suppressed rd cfg (mkAction eid aid nm fl ni ninst kids)
  then map eventId (flatten_action (mkAction eid aid nm fl ni ninst kids))
  else flat_map (suppressed_ids_of rd cfg) kids.
Proof. reflexivity. Qed.

(** A node is inside a suppressed subtree or outside all of them. *)
Lemma ids_split cfg a :
  Permutation (map eventId (flatten_action a))
    (surviving_ids_of rd cfg a ++ suppressed_ids_of rd cfg a).
Proof.
  induction a as [eid aid nm fl ni ninst kids IH] using Action_forest_ind.
  rewrite surviving_ids_of_eq, suppressed_ids_of_eq.
  destruct (suppressed rd cfg (mkAction eid aid nm fl ni ninst kids));
    [reflexivity|].
  rewrite flatten_action_eq. cbn [map eventId app]. apply perm_skip.
  unfold flatten_actions. rewrite map_flat_map_comm.
  now apply Permutation_flat_map_split.
Qed.

(** The subtree of a node of a subtree is part of that subtree. *)
Lemma flatten_action_trans a :
  forall m d, In m (flatten_action a) -> In d (flatten_action m) ->
              In d (flatten_action a).
Proof.
  induction a as [eid aid nm fl ni ninst kids IH] using Action_forest_ind.
  intros m d Hm Hd. rewrite flatten_action_eq in Hm.
  destruct Hm as [<-|Hm]; [exact Hd|].
  rewrite flatten_action_eq. right.
  unfold flatten_actions in *. apply in_flat_map in Hm.
  destruct Hm as (k & Hk & Hm). apply in_flat_map. exists k.
  split; [exact Hk|]. rewrite Forall_forall in IH. now apply (IH k Hk m d).
Qed.

(** The nodes below a suppressed marker, and the marker, are counted among
    the suppressed ones. *)
Lemma suppressed_subtree cfg a :
  forall m d,
    In m (flatten_action a) -> suppressed rd cfg m = true ->
    In d (flatten_action m) ->
    In (eventId d) (suppressed_ids_of rd cfg a).
Proof.
  induction a as [eid aid nm fl ni ninst kids IH] using Action_forest_ind.
  intros m d Hm Hsup Hd. rewrite suppressed_ids_of_eq.
  destruct (suppressed rd cfg (mkAction eid aid nm fl ni ninst kids)) eqn:Hhere.
  - apply in_map. now apply (flatten_action_trans _ m d).
  - rewrite flatten_action_eq in Hm.
    destruct Hm as [<-|Hm]; [congruence|].
    unfold flatten_actions in Hm. apply in_flat_map in Hm.
    destruct Hm as (k & Hk & Hm). apply in_flat_map. exists k.
    split; [exact Hk|]. rewrite Forall_forall in IH. now apply (IH k Hk m d).
Qed.

(** Whatever is emitted was built from a node outside every suppressed
    subtree. *)
Lemma output_ids_survive cfg a :
  forall inm,
    incl (map event_id (all_items (serialize_action rd cfg inm a)))
         (surviving_ids_of rd cfg a).
Proof.
  induction a as [eid aid nm fl ni ninst kids IH] using Action_forest_ind.
  intros inm.
  assert (Hcr : forall m,
             incl (map event_id (all_items (children_result_of rd cfg m kids)))
                  (flat_map (surviving_ids_of rd cfg) kids)).
  { intros m. unfold children_result_of.
    destruct (include_children cfg && nonempty kids); [|intros x []].
    unfold all_items, serialize_actions.
    rewrite flat_map_compose, map_flat_map_comm.
    apply flat_map_incl_pointwise. revert IH. apply Forall_impl.
    intros k Hk. apply Hk. }
  rewrite serialize_action_eq, surviving_ids_of_eq. cbv zeta.
  fold (children_result_of rd cfg (in_matching_at rd cfg inm nm fl) kids).
  rewrite <- (excluded_suppressed cfg (mkAction eid aid nm fl ni ninst kids)).
  cbn [name flags].
  destruct (excluded rd cfg nm fl); [apply incl_refl|].
  destruct (only_actions cfg && is_marker rd fl);
    [apply incl_tl, Hcr|].
  destruct (flags_rejected rd cfg fl); [intros x []|].
  match goal with |- context [if ?b then [_] else []] => destruct b end;
    [|intros x []].
  rewrite all_items_single. cbn [map event_id].
  apply incl_cons; [now left|]. apply incl_tl, Hcr.
Qed.

(** The names of the nodes that are not markers are never looked at by the
    [exclude_markers] check: in a tree none of whose markers has a name
    that contains a listed string, the check changes nothing. *)
Lemma serialize_action_unexcluded cfg a :
  (forall m,
      In m (flatten_action a) -> is_marker rd (flags m) = true ->
      existsb (fun ex => contains ex (name m))
        (opt_list (exclude_markers cfg)) = false) ->
  forall inm,
    serialize_action rd cfg inm a =
    serialize_action rd (without_exclude_markers cfg) inm a.
Proof.
  induction a as [eid aid nm fl ni ninst kids IH] using Action_forest_ind.
  intros Hfree inm. rewrite flatten_action_eq in Hfree.
  assert (Hkids : forall m,
             serialize_actions rd cfg m kids =
             serialize_actions rd (without_exclude_markers cfg) m kids).
  { intros m. apply flat_map_ext_Forall.
    rewrite Forall_forall in IH |- *. intros k Hk. apply IH; [exact Hk|].
    intros d Hd. apply Hfree. right. unfold flatten_actions.
    apply in_flat_map. now exists k. }
  assert (Hhere : excluded rd cfg nm fl = false).
  { unfold excluded. destruct (is_marker rd fl) eqn:Hm.
    - pose proof (Hfree (mkAction eid aid nm fl ni ninst kids)
                    (or_introl eq_refl) Hm) as Hnone.
      cbn [name] in Hnone. rewrite Hnone. apply andb_false_r.
    - now rewrite andb_false_r. }
  rewrite !serialize_action_eq. rewrite Hhere.
  change (excluded rd (without_exclude_markers cfg) nm fl) with false.
  cbv zeta.
  change (in_matching_at rd (without_exclude_markers cfg) inm nm fl)
    with (in_matching_at rd cfg inm nm fl).
  rewrite <- Hkids. reflexivity.
Qed.

Lemma prune_excluded_eq cfg eid aid nm fl ni ninst kids :
  prune_excluded rd cfg (mkAction eid aid nm fl ni ninst kids) =
  if suppressed rd cfg (mkAction eid aid nm fl ni ninst kids) then []
  else [mkAction eid aid nm fl ni ninst
          (flat_map (prune_excluded rd cfg) kids)].
Proof. reflexivity. Qed.

(** The [exclude_markers] check does what pruning the suppressed subtrees
    does, and nothing else. *)
Lemma serialize_action_prune cfg a :
  forall inm,
    serialize_action rd cfg inm a =
    serialize_actions rd (without_exclude_markers cfg) inm
      (prune_excluded rd cfg a).
Proof.
  induction a as [eid aid nm fl ni ninst kids IH] using Action_forest_ind.
  intros inm. rewrite prune_excluded_eq.
  pose proof (excluded_suppressed cfg (mkAction eid aid nm fl ni ninst kids))
    as Hhere. cbn [name flags] in Hhere.
  rewrite serialize_action_eq, Hhere.
  destruct (suppressed rd cfg (mkAction eid aid nm fl ni ninst kids));
    [reflexivity|].
  set (kids' := flat_map (prune_excluded rd cfg) kids).
  assert (Hkids : forall m,
             serialize_actions rd cfg m kids =
             serialize_actions rd (without_exclude_markers cfg) m kids').
  { intros m. subst kids'. unfold serialize_actions.
    rewrite flat_map_compose. apply flat_map_ext_Forall.
    rewrite Forall_forall in IH |- *. intros k Hk. now apply IH. }
  assert (Hchildren : forall m,
             (if include_children cfg && nonempty kids
              then serialize_actions rd cfg m kids else []) =
             (if include_children cfg && nonempty kids'
              then serialize_actions rd (without_exclude_markers cfg) m kids'
              else [])).
  { intros m. rewrite Hkids.
    destruct (include_children cfg); cbn [andb]; [|reflexivity].
    destruct kids as [|k ks]; [reflexivity|]. cbn [nonempty].
    now destruct kids'. }
  transitivity (serialize_action rd (without_exclude_markers cfg) inm
                  (mkAction eid aid nm fl ni ninst kids'));
    [|unfold serialize_actions; cbn [flat_map]; symmetry; apply app_nil_r].
  rewrite serialize_action_eq.
  change (excluded rd (without_exclude_markers cfg) nm fl) with false.
  cbv zeta.
  change (in_matching_at rd (without_exclude_markers cfg) inm nm fl)
    with (in_matching_at rd cfg inm nm fl).
  change (include_children (without_exclude_markers cfg))
    with (include_children cfg).
  rewrite <- Hchildren. reflexivity.
Qed.

(** C2 (amended): when [exclude_markers] lists the string [ex], no marker
    dictionary of the output, at any depth, has a name that contains [ex];
    and, event ids being unique in the forest, neither a marker whose name
    contains [ex] nor any node of its subtree has its event id in the
    output, whatever the other filters say about them.  The check removes
    the subtrees of these markers and does nothing else: the output is the
    one of the run without [exclude_markers] on the forest without these
    subtrees, so that the names of the nodes that are not markers play no
    part; and in a forest none of whose markers has a name that contains a
    listed string, the output is the one of the run without
    [exclude_markers] on the forest itself. *)
Theorem excluded_markers_absent cfg exs ex inm actions :
  exclude_markers cfg = Some exs -> In ex exs ->
  let out := serialize_actions rd cfg inm actions in
  (forall it,
      In it (all_items out) -> item_is_marker it = true ->
      contains ex (item_name it) = false)
  /\ (NoDup (map eventId (flatten_actions actions)) ->
      forall m d,
        In m (flatten_actions actions) ->
        is_marker rd (flags m) = true -> contains ex (name m) = true ->
        In d (flatten_action m) ->
        ~ In (eventId d) (map event_id (all_items out)))
  /\ out = serialize_actions rd (without_exclude_markers cfg) inm
             (flat_map (prune_excluded rd cfg) actions)
  /\ ((forall m ex',
         In m (flatten_actions actions) -> is_marker rd (flags m) = true ->
         In ex' exs -> contains ex' (name m) = false) ->
      out = serialize_actions rd (without_exclude_markers cfg) inm actions).
Proof.
  intros Hexs Hex out.
  assert (Hpruned :
            out = serialize_actions rd (without_exclude_markers cfg) inm
                    (flat_map (prune_excluded rd cfg) actions)).
  { subst out. unfold serialize_actions. rewrite flat_map_compose.
    apply flat_map_ext_Forall, Forall_forall. intros a _.
    apply serialize_action_prune. }
  assert (Hthird :
            (forall m ex',
                In m (flatten_actions actions) ->
                is_marker rd (flags m) = true ->
                In ex' exs -> contains ex' (name m) = false) ->
            out = serialize_actions rd (without_exclude_markers cfg) inm
                    actions).
  { intros Hfree. subst out. unfold serialize_actions.
    apply flat_map_ext_Forall, Forall_forall. intros a Ha.
    apply serialize_action_unexcluded. intros m Hm Hmark.
    rewrite Hexs. cbn [opt_list].
    destruct (existsb (fun ex0 => contains ex0 (name m)) exs) eqn:Hex0;
      [|reflexivity].
    apply existsb_exists in Hex0. destruct Hex0 as (ex' & Hin & Hc).
    rewrite (Hfree m ex') in Hc; [discriminate Hc| |exact Hmark|exact Hin].
    unfold flatten_actions. apply in_flat_map. now exists a. }
  split; [|split; [|split; [exact Hpruned | exact Hthird]]];
    clear Hthird Hpruned.
  - intros it Hit Hmark.
    destruct (serialize_actions_origin rd cfg inm actions it Hit)
      as (a & inm' & _ & Hem & Hnot & _).
    rewrite Hem in Hmark |- *. rewrite item_is_marker_serialized in Hmark.
    cbn [item_name]. unfold excluded in Hnot. rewrite Hexs, Hmark in Hnot.
    cbn [list_truthy opt_list] in Hnot.
    assert (nonempty exs = true) as Hne by (destruct exs; [destruct Hex | reflexivity]).
    rewrite Hne in Hnot. cbn [andb] in Hnot.
    destruct (contains ex (name a)) eqn:Hc; [|reflexivity].
    assert (existsb (fun ex0 => contains ex0 (name a)) exs = true) as Habs;
      [|congruence].
    apply existsb_exists. now exists ex.
  - intros Hnd m d Hm Hmark Hc Hd Hout.
    assert (Hsup : suppressed rd cfg m = true).
    { unfold suppressed. rewrite Hmark, Hexs. cbn [andb opt_list].
      apply existsb_exists. now exists ex. }
    assert (Hin_sup : In (eventId d)
                        (flat_map (suppressed_ids_of rd cfg) actions)).
    { unfold flatten_actions in Hm. apply in_flat_map in Hm.
      destruct Hm as (k & Hk & Hm). apply in_flat_map. exists k.
      split; [exact Hk|]. now apply (suppressed_subtree cfg k m d). }
    assert (Hin_sur : In (eventId d)
                        (flat_map (surviving_ids_of rd cfg) actions)).
    { revert Hout. subst out. unfold all_items, serialize_actions.
      rewrite flat_map_compose, map_flat_map_comm.
      apply flat_map_incl_pointwise, Forall_forall. intros k _.
      apply output_ids_survive. }
    assert (Hsplit : Permutation (map eventId (flatten_actions actions))
                       (flat_map (surviving_ids_of rd cfg) actions ++
                        flat_map (suppressed_ids_of rd cfg) actions)).
    { unfold flatten_actions. rewrite map_flat_map_comm.
      apply Permutation_flat_map_split, Forall_forall. intros k _.
      apply ids_split. }
    apply (Permutation_NoDup Hsplit) in Hnd.
    exact (NoDup_app_disjoint _ _ _ Hnd Hin_sur Hin_sup).
Qed.

End Exclusion.

(** A pass named "Foo" is suppressed: neither it (event id 0) nor the draw
    call below it (event id 1) is in the output, though nothing else is
    filtered. *)
Lemma excluded_markers_absent_witness :
  let forest :=
    [mkAction 0 0 "Foo pass" 0x40 0 0 [mkAction 1 1 "Draw" 0x2 3 1 []];
     mkAction 2 2 "Draw" 0x2 3 1 []] in
  let out :=
    serialize_actions renderdoc_flags
      (mkConfig true None (Some ["Foo"]) None None false None) false forest in
  ~ In 0 (map event_id (all_items out)) /\ ~ In 1 (map event_id (all_items out)).
Proof.
  intros forest out.
  destruct (excluded_markers_absent renderdoc_flags
              (mkConfig true None (Some ["Foo"]) None None false None)
              ["Foo"] "Foo" false forest eq_refl (or_introl eq_refl))
    as (_ & Habsent & _ & _).
  assert (Hnd : NoDup (map eventId (flatten_actions forest))).
  { cbn. repeat constructor; cbn; intuition discriminate. }
  split.
  - apply (Habsent Hnd (mkAction 0 0 "Foo pass" 0x40 0 0
                          [mkAction 1 1 "Draw" 0x2 3 1 []])
             (mkAction 0 0 "Foo pass" 0x40 0 0
                [mkAction 1 1 "Draw" 0x2 3 1 []]));
      [cbn; tauto | reflexivity | reflexivity | cbn; tauto].
  - apply (Habsent Hnd (mkAction 0 0 "Foo pass" 0x40 0 0
                          [mkAction 1 1 "Draw" 0x2 3 1 []])
             (mkAction 1 1 "Draw" 0x2 3 1 []));
      [cbn; tauto | reflexivity | reflexivity | cbn; tauto].
Defined.

(** C2 as stated fails: [exclude_markers] is tested on markers only, so a
    draw call whose name contains "Foo" stays in the output. *)
Lemma exclude_markers_keeps_leaf :
  let out :=
    serialize_actions renderdoc_flags
      (mkConfig true None (Some ["Foo"]) None None false None) false
      [mkAction 1 0 "DrawFoo" 0x2 3 1 []] in
  out = [mkItem 1 0 "DrawFoo" ["Drawcall"] 3 1 None]
  /\ exists it, In it (all_items out) /\ contains "Foo" (item_name it) = true.
Proof.
  split; [reflexivity|].
  exists (mkItem 1 0 "DrawFoo" ["Drawcall"] 3 1 None).
  split; [now left | reflexivity].
Qed.

(** * Further properties of the code *)

(** ** Subsequences *)

Lemma subseq_refl {A : Type} (l : list A) : subseq l l.
Proof. induction l; constructor; assumption. Qed.

Lemma subseq_nil_l {A : Type} (l : list A) : subseq [] l.
Proof. induction l; constructor; assumption. Qed.

Lemma subseq_app {A : Type} (l1 l2 m1 m2 : list A) :
  subseq l1 m1 -> subseq l2 m2 -> subseq (l1 ++ l2) (m1 ++ m2).
Proof.
  induction 1; intros H2; cbn [app];
    [exact H2 | apply subseq_skip; auto | apply subseq_take; auto].
Qed.

Lemma subseq_flat_map {A B : Type} (f g : A -> list B) l :
  Forall (fun a => subseq (f a) (g a)) l ->
  subseq (flat_map f l) (flat_map g l).
Proof.
  induction 1 as [|a l Ha _ IH]; cbn [flat_map]; [constructor|].
  now apply subseq_app.
Qed.

Lemma subseq_In {A : Type} (l1 l2 : list A) x :
  subseq l1 l2 -> In x l1 -> In x l2.
Proof.
  induction 1; simpl; intros Hx; auto.
  destruct Hx as [->|Hx]; auto.
Qed.

Lemma subseq_NoDup {A : Type} (l1 l2 : list A) :
  subseq l1 l2 -> NoDup l2 -> NoDup l1.
Proof.
  induction 1 as [|x l1 l2 Hs IH|x l1 l2 Hs IH]; intros Hnd; [constructor| |].
  - inversion Hnd; subst. auto.
  - inversion Hnd as [|? ? Hnotin Hnd']; subst. constructor; [|auto].
    intros Hx. apply Hnotin. now apply (subseq_In l1 l2).
Qed.

(** ** The order of the output *)

Section OutputOrder.

Variable rd : ActionFlags.

Lemma serialize_action_ids_subseq cfg a :
  forall inm,
    subseq (map event_id (all_items (serialize_action rd cfg inm a)))
           (map eventId (flatten_action a)).
Proof.
  induction a as [eid aid nm fl ni ninst kids IH] using Action_forest_ind.
  intros inm.
  assert (Hcr : forall m,
             subseq (map event_id (all_items (children_result_of rd cfg m kids)))
                    (map eventId (flatten_actions kids))).
  { intros m. unfold children_result_of.
    destruct (include_children cfg && nonempty kids); [|apply subseq_nil_l].
    unfold all_items, serialize_actions, flatten_actions.
    rewrite flat_map_compose, !map_flat_map_comm.
    apply subseq_flat_map. revert IH. apply Forall_impl.
    intros k Hk. apply Hk. }
  rewrite serialize_action_eq, flatten_action_eq. cbv zeta.
  fold (children_result_of rd cfg (in_matching_at rd cfg inm nm fl) kids).
  cbn [map eventId].
  destruct (excluded rd cfg nm fl); [apply subseq_nil_l|].
  destruct (only_actions cfg && is_marker rd fl);
    [apply subseq_skip, Hcr|].
  destruct (flags_rejected rd cfg fl); [apply subseq_nil_l|].
  match goal with |- context [if ?b then [_] else []] => destruct b end;
    [|apply subseq_nil_l].
  rewrite all_items_single. cbn [map event_id].
  apply subseq_take, Hcr.
Qed.

(** X1: the event ids of an output, read in pre-order, are the event ids
    of the forest in pre-order ([Helpers.flatten_actions]) with some left
    out: the filter neither reorders nor repeats nor invents an action; in
    particular, ids that are unique in the forest are unique in the
    output. *)
Theorem output_ids_in_forest_order cfg inm actions :
  let out := serialize_actions rd cfg inm actions in
  subseq (map event_id (all_items out)) (map eventId (flatten_actions actions))
  /\ (NoDup (map eventId (flatten_actions actions)) ->
      NoDup (map event_id (all_items out))).
Proof.
  intros out.
  assert (Hsub : subseq (map event_id (all_items out))
                        (map eventId (flatten_actions actions))).
  { subst out. unfold all_items, serialize_actions, flatten_actions.
    rewrite flat_map_compose, !map_flat_map_comm.
    apply subseq_flat_map, Forall_forall. intros a _.
    apply serialize_action_ids_subseq. }
  split; [exact Hsub|]. now apply subseq_NoDup.
Qed.

End OutputOrder.

Lemma output_ids_in_forest_order_witness :
  NoDup (map event_id
           (all_items
              (serialize_actions renderdoc_flags
                 (mkConfig true None None (Some 1) None true None) false
                 [mkAction 0 0 "A" 0x40 0 0 [mkAction 1 1 "Draw" 0x2 3 1 []];
                  mkAction 2 2 "Draw" 0x2 3 1 []]))).
Proof.
  apply (proj2 (output_ids_in_forest_order renderdoc_flags
                  (mkConfig true None None (Some 1) None true None) false
                  [mkAction 0 0 "A" 0x40 0 0 [mkAction 1 1 "Draw" 0x2 3 1 []];
                   mkAction 2 2 "Draw" 0x2 3 1 []])).
  cbn. repeat constructor; cbn; intuition discriminate.
Defined.

(** ** What every dictionary of an output has passed *)

Section Soundness.

Variable rd : ActionFlags.

Lemma serialize_action_included cfg a :
  forall inm it,
    In it (all_items (serialize_action rd cfg inm a)) ->
    exists d inm',
      In d (flatten_action a) /\ emitted_from rd cfg d inm' it /\
      included_at rd cfg inm' d = true.
Proof.
  induction a as [eid aid nm fl ni ninst kids IH] using Action_forest_ind.
  intros inm it. rewrite serialize_action_eq. cbv zeta.
  fold (children_result_of rd cfg (in_matching_at rd cfg inm nm fl) kids).
  set (inm' := in_matching_at rd cfg inm nm fl).
  set (node := mkAction eid aid nm fl ni ninst kids).
  assert (Hbelow : In it (all_items (children_result_of rd cfg inm' kids)) ->
             exists d m,
               In d (flatten_action node) /\ emitted_from rd cfg d m it /\
               included_at rd cfg m d = true).
  { intros Hit. unfold children_result_of in Hit.
    destruct (include_children cfg && nonempty kids);
      [|exact (match (Hit : False) with end)].
    destruct (in_all_items_serialize_actions rd cfg inm' kids it Hit)
      as (k & Hk & Hin).
    rewrite Forall_forall in IH.
    destruct (IH k Hk inm' it Hin) as (d & m & Hd & Hrest).
    exists d, m. split; [|exact Hrest].
    subst node. rewrite flatten_action_eq. right.
    unfold flatten_actions. apply in_flat_map. eauto. }
  destruct (excluded rd cfg nm fl) eqn:Hex; [nothing_in_nil|].
  destruct (only_actions cfg && is_marker rd fl) eqn:Hoa; [exact Hbelow|].
  destruct (flags_rejected rd cfg fl) eqn:Hfr; [nothing_in_nil|].
  match goal with |- context [if ?b then [_] else []] =>
    destruct b eqn:Hpass end; [|nothing_in_nil].
  rewrite all_items_single. intros [<-|Hit]; [|exact (Hbelow Hit)].
  exists node, inm'. split; [subst node; rewrite flatten_action_eq; now left|].
  split; [reflexivity|].
  unfold included_at. subst node. cbn [name flags children eventId].
  rewrite Hex, Hoa, Hfr. cbn [negb andb].
  destruct (is_marker rd fl); exact Hpass.
Qed.

Lemma serialize_actions_included cfg inm actions it :
  In it (all_items (serialize_actions rd cfg inm actions)) ->
  exists d inm',
    In d (flatten_actions actions) /\ emitted_from rd cfg d inm' it /\
    included_at rd cfg inm' d = true.
Proof.
  intros Hit.
  destruct (in_all_items_serialize_actions rd cfg inm actions it Hit)
    as (k & Hk & Hin).
  destruct (serialize_action_included cfg k inm it Hin) as (d & m & Hd & Hrest).
  exists d, m. split; [|exact Hrest].
  unfold flatten_actions. apply in_flat_map. eauto.
Qed.

(** X2: with [only_actions] set, no dictionary of the output, at any
    depth, describes a marker. *)
Theorem only_actions_emits_no_marker cfg inm actions it :
  only_actions cfg = true ->
  In it (all_items (serialize_actions rd cfg inm actions)) ->
  item_is_marker it = false.
Proof.
  intros Hoa Hit.
  destruct (serialize_actions_included cfg inm actions it Hit)
    as (d & m & _ & Hem & Hinc).
  rewrite Hem, item_is_marker_serialized.
  unfold included_at in Hinc. rewrite Hoa in Hinc.
  destruct (is_marker rd (flags d)); [|reflexivity].
  now rewrite andb_false_r in Hinc.
Qed.

(** X3: every non-marker dictionary of the output, at any depth, has its
    event id inside the configured bounds. *)
Theorem emitted_leaves_are_in_range cfg inm actions it :
  In it (all_items (serialize_actions rd cfg inm actions)) ->
  item_is_marker it = false ->
  (forall lo, event_id_min cfg = Some lo -> lo <= event_id it) /\
  (forall hi, event_id_max cfg = Some hi -> event_id it <= hi).
Proof.
  intros Hit Hleaf.
  destruct (serialize_actions_included cfg inm actions it Hit)
    as (d & m & _ & Hem & Hinc).
  rewrite Hem in Hleaf |- *. rewrite item_is_marker_serialized in Hleaf.
  cbn [event_id]. unfold included_at in Hinc. rewrite Hleaf in Hinc.
  apply andb_true_iff in Hinc. destruct Hinc as [Hinc _].
  apply andb_true_iff in Hinc. destruct Hinc as [_ Hrange].
  unfold in_range_at in Hrange. rewrite Hleaf in Hrange.
  apply andb_true_iff in Hrange. destruct Hrange as [Hlo Hhi].
  split.
  - intros lo Hmin. rewrite Hmin in Hlo.
    apply negb_true_iff, Z.ltb_ge in Hlo. exact Hlo.
  - intros hi Hmax. rewrite Hmax in Hhi.
    apply negb_true_iff in Hhi. rewrite Z.gtb_ltb in Hhi.
    apply Z.ltb_ge in Hhi. exact Hhi.
Qed.

(** X4: under a non-empty [flags_filter], every non-marker dictionary of
    the output, at any depth, lists at least one of the requested flag
    names. *)
Theorem emitted_leaves_have_a_requested_flag cfg wanted inm actions it :
  flags_filter cfg = Some wanted -> wanted <> [] ->
  In it (all_items (serialize_actions rd cfg inm actions)) ->
  item_is_marker it = false ->
  exists f, In f (item_flags it) /\ In f wanted.
Proof.
  intros Hff Hne Hit Hleaf.
  destruct (serialize_actions_included cfg inm actions it Hit)
    as (d & m & _ & Hem & Hinc).
  rewrite Hem in Hleaf |- *. rewrite item_is_marker_serialized in Hleaf.
  cbn [item_flags]. unfold included_at in Hinc.
  apply andb_true_iff in Hinc. destruct Hinc as [Hinc _].
  apply andb_true_iff in Hinc. destruct Hinc as [Hinc _].
  apply andb_true_iff in Hinc. destruct Hinc as [_ Hfr].
  apply negb_true_iff in Hfr. unfold flags_rejected in Hfr.
  rewrite Hff, Hleaf in Hfr. cbn [list_truthy opt_list negb] in Hfr.
  rewrite (nonempty_iff wanted Hne) in Hfr. cbn [andb] in Hfr.
  apply negb_false_iff, existsb_exists in Hfr.
  destruct Hfr as (f & Hf & Hmem). exists f. split; [exact Hf|].
  unfold mem_string in Hmem. apply existsb_exists in Hmem.
  destruct Hmem as (g & Hg & Heq). apply String.eqb_eq in Heq.
  subst g. exact Hg.
Qed.

(** X5: [get_draw_calls] raises when no capture is loaded; when one is,
    and a [marker_filter] is given without [only_actions], every top-level
    dictionary of its answer is a PushMarker whose name contains the
    filter string. *)
Theorem get_draw_calls_roots_match cfg root_actions :
  get_draw_calls rd false root_actions cfg = ValueError "No capture loaded"
  /\ (str_truthy (marker_filter cfg) = true -> only_actions cfg = false ->
      forall out it,
        get_draw_calls rd true root_actions cfg = Ok out -> In it out ->
        In "PushMarker" (item_flags it) /\
        contains (opt_string (marker_filter cfg)) (item_name it) = true).
Proof.
  split; [reflexivity|].
  intros Hmf Hoa out it Hout Hit. cbn in Hout. injection Hout as <-.
  unfold serialize_actions in Hit. apply in_flat_map in Hit.
  destruct Hit as ([eid aid nm fl ni ninst kids] & _ & Hit).
  rewrite serialize_action_eq in Hit. cbv zeta in Hit.
  rewrite Hoa in Hit. cbn [andb] in Hit.
  destruct (excluded rd cfg nm fl); [destruct Hit|].
  destruct (flags_rejected rd cfg fl); [destruct Hit|].
  assert (Hscope : passes_marker_filter_at cfg
                     (in_matching_at rd cfg false nm fl) = true).
  { destruct (is_marker rd fl);
      match type of Hit with context [if ?b && ?p then _ else _] =>
        destruct b; cbn [andb] in Hit; [|destruct Hit];
        destruct p; [reflexivity|destruct Hit]
      end. }
  assert (Hit' : item_flags it = serialize_flags rd fl /\ item_name it = nm).
  { match type of Hit with context [if ?b then [_] else []] =>
      destruct b; [|destruct Hit] end.
    destruct Hit as [<-|[]]. now split. }
  destruct Hit' as [-> ->].
  unfold passes_marker_filter_at in Hscope. rewrite Hmf in Hscope.
  cbn [negb orb] in Hscope. unfold in_matching_at in Hscope.
  rewrite Hmf in Hscope. cbn [andb] in Hscope.
  destruct (is_push_marker rd fl) eqn:Hpush; [|discriminate].
  cbn [andb] in Hscope.
  destruct (contains (opt_string (marker_filter cfg)) nm); [|discriminate].
  split; [|reflexivity].
  pose proof (serialize_flags_push rd fl) as Hmem. rewrite Hpush in Hmem.
  unfold mem_string in Hmem. apply existsb_exists in Hmem.
  destruct Hmem as (g & Hg & Heq). apply String.eqb_eq in Heq.
  subst g. exact Hg.
Qed.

End Soundness.

Lemma only_actions_emits_no_marker_witness :
  item_is_marker (mkItem 1 1 "Draw" ["Drawcall"] 3 1 None) = false.
Proof.
  apply (only_actions_emits_no_marker renderdoc_flags
           (mkConfig true None None None None true None) false
           [mkAction 0 0 "A" 0x40 0 0 [mkAction 1 1 "Draw" 0x2 3 1 []];
            mkAction 2 2 "Draw" 0x10002 3 1 []]);
    [reflexivity | left; reflexivity].
Defined.

Lemma emitted_leaves_are_in_range_witness :
  2 <= event_id (mkItem 2 2 "Draw" ["Drawcall"; "Indexed"] 3 1 None) <= 5.
Proof.
  destruct (emitted_leaves_are_in_range renderdoc_flags
              (mkConfig true None None (Some 2) (Some 5) false None) false
              [mkAction 0 0 "A" 0x40 0 0 [mkAction 1 1 "Draw" 0x2 3 1 []];
               mkAction 2 2 "Draw" 0x10002 3 1 []]
              (mkItem 2 2 "Draw" ["Drawcall"; "Indexed"] 3 1 None)
              ltac:(left; reflexivity) eq_refl) as [Hlo Hhi].
  split; [exact (Hlo 2 eq_refl) | exact (Hhi 5 eq_refl)].
Defined.

Lemma emitted_leaves_have_a_requested_flag_witness :
  exists f,
    In f (item_flags (mkItem 2 2 "Draw" ["Drawcall"; "Indexed"] 3 1 None)) /\
    In f ["Indexed"; "Instanced"].
Proof.
  apply (emitted_leaves_have_a_requested_flag renderdoc_flags
           (mkConfig true None None None None false
              (Some ["Indexed"; "Instanced"]))
           ["Indexed"; "Instanced"] false
           [mkAction 0 0 "A" 0x40 0 0 [mkAction 1 1 "Draw" 0x2 3 1 []];
            mkAction 2 2 "Draw" 0x10002 3 1 []]);
    [reflexivity | discriminate | left; reflexivity | reflexivity].
Defined.

Lemma get_draw_calls_roots_match_witness :
  In "PushMarker"
     (item_flags (mkItem 1 1 "A" ["PushMarker"] 0 0
                    (Some [mkItem 2 2 "Draw" ["Drawcall"] 3 1 None]))) /\
  contains "A" "A" = true.
Proof.
  apply (proj2 (get_draw_calls_roots_match renderdoc_flags
                  (mkConfig true (Some "A") None None None false None)
                  [mkAction 0 0 "Scene" 0x40 0 0 [];
                   mkAction 1 1 "A" 0x40 0 0 [mkAction 2 2 "Draw" 0x2 3 1 []];
                   mkAction 3 3 "Draw" 0x2 3 1 []])
           eq_refl eq_refl
           [mkItem 1 1 "A" ["PushMarker"] 0 0
              (Some [mkItem 2 2 "Draw" ["Drawcall"] 3 1 None])]);
    [reflexivity | left; reflexivity].
Defined.

(** ** The counters of the frame summary *)

Section SummaryCounts.

Variable rd : ActionFlags.

Lemma count_flags_dispatches fl c :
  dispatches (stats (count_flags rd fl c)) =
  dispatches (stats c) + (if has_flag fl (Dispatch rd) then 1 else 0).
Proof.
  unfold count_flags.
  destruct (has_flag fl (Dispatch rd));
    repeat match goal with |- context [if ?b then _ else _] => destruct b end;
    simpl; lia.
Qed.

Lemma count_flags_clears fl c :
  clears (stats (count_flags rd fl c)) =
  clears (stats c) + (if has_flag fl (Clear rd) then 1 else 0).
Proof.
  unfold count_flags.
  destruct (has_flag fl (Clear rd));
    repeat match goal with |- context [if ?b then _ else _] => destruct b end;
    simpl; lia.
Qed.

Lemma count_flags_copies fl c :
  copies (stats (count_flags rd fl c)) =
  copies (stats c) + (if has_flag fl (Copy rd) then 1 else 0).
Proof.
  unfold count_flags.
  destruct (has_flag fl (Copy rd));
    repeat match goal with |- context [if ?b then _ else _] => destruct b end;
    simpl; lia.
Qed.

Lemma count_flags_presents fl c :
  presents (stats (count_flags rd fl c)) =
  presents (stats c) + (if has_flag fl (Present rd) then 1 else 0).
Proof.
  unfold count_flags.
  destruct (has_flag fl (Present rd));
    repeat match goal with |- context [if ?b then _ else _] => destruct b end;
    simpl; lia.
Qed.

(** A quantity that one visit raises by one exactly when the flags pass a
    test is, after the traversal, raised by the number of nodes of the
    forest that pass it. *)
Lemma count_actions_measure (mu : Counters -> Z) (test : Z -> bool) :
  (forall fl c,
      mu (count_flags rd fl (bump_total c)) =
      mu c + (if test fl then 1 else 0)) ->
  forall actions c,
    mu (count_actions rd c actions) =
    mu c + Z.of_nat (List.length (filter (fun a => test (flags a))
                                    (flatten_actions actions))).
Proof.
  intros Hstep.
  assert (Hlist : forall l,
             Forall (fun a => forall c,
                         mu (count_action rd c a) =
                         mu c + Z.of_nat (List.length
                                            (filter (fun a => test (flags a))
                                               (flatten_action a)))) l ->
             forall c,
               mu (fold_left (count_action rd) l c) =
               mu c + Z.of_nat (List.length
                                  (filter (fun a => test (flags a))
                                     (flatten_actions l)))).
  { induction 1 as [|k l Hk _ IH]; intros c; cbn [fold_left].
    - cbn. lia.
    - rewrite IH, Hk. unfold flatten_actions. cbn [flat_map].
      rewrite filter_app, length_app. lia. }
  assert (Hnode : forall a c,
             mu (count_action rd c a) =
             mu c + Z.of_nat (List.length (filter (fun a => test (flags a))
                                             (flatten_action a)))).
  { induction a as [eid aid nm fl ni ninst kids IH] using Action_forest_ind.
    intros c. rewrite flatten_action_eq. cbn [count_action filter flags].
    assert (Hkids : mu (if nonempty kids
                        then fold_left (count_action rd) kids
                               (count_flags rd fl (bump_total c))
                        else count_flags rd fl (bump_total c)) =
                    mu (count_flags rd fl (bump_total c)) +
                    Z.of_nat (List.length (filter (fun a => test (flags a))
                                             (flatten_actions kids)))).
    { destruct kids as [|k ks]; [cbn; lia|]. cbn [nonempty].
      now apply Hlist. }
    rewrite Hkids, Hstep.
    destruct (test fl); cbn [List.length]; lia. }
  intros actions c. apply Hlist, Forall_forall. intros a _. apply Hnode.
Qed.

(** X6: the summary counts every node of the forest once:
    [total_actions] is the number of nodes that [Helpers.flatten_actions]
    lists, and each statistic is the number of those nodes whose flags have
    the corresponding bit ("markers": the PushMarker or the SetMarker
    bit). *)
Theorem frame_summary_counts_nodes api textures buffers root_actions :
  let summary := get_frame_summary rd api textures buffers root_actions in
  let count test :=
    Z.of_nat (List.length (filter (fun a => test (flags a))
                             (flatten_actions root_actions))) in
  sum_total_actions summary =
    Z.of_nat (List.length (flatten_actions root_actions))
  /\ draw_calls (sum_statistics summary) =
     count (fun fl => has_flag fl (Drawcall rd))
  /\ dispatches (sum_statistics summary) =
     count (fun fl => has_flag fl (Dispatch rd))
  /\ clears (sum_statistics summary) =
     count (fun fl => has_flag fl (Clear rd))
  /\ copies (sum_statistics summary) =
     count (fun fl => has_flag fl (Copy rd))
  /\ presents (sum_statistics summary) =
     count (fun fl => has_flag fl (Present rd))
  /\ markers (sum_statistics summary) =
     count (fun fl => has_flag fl (PushMarker rd) || has_flag fl (SetMarker rd)).
Proof.
  intros summary count. subst summary count.
  unfold get_frame_summary.
  cbn [sum_total_actions sum_statistics].
  repeat split.
  - rewrite (count_actions_measure total_actions (fun _ => true)).
    + cbn. f_equal. f_equal.
      induction (flatten_actions root_actions) as [|a l IH];
        [reflexivity | cbn; now rewrite IH].
    + intros fl c. now rewrite count_flags_total.
  - rewrite (count_actions_measure (fun c => draw_calls (stats c))
               (fun fl => has_flag fl (Drawcall rd))); [reflexivity|].
    intros fl c. now rewrite count_flags_draw_calls.
  - rewrite (count_actions_measure (fun c => dispatches (stats c))
               (fun fl => has_flag fl (Dispatch rd))); [reflexivity|].
    intros fl c. now rewrite count_flags_dispatches.
  - rewrite (count_actions_measure (fun c => clears (stats c))
               (fun fl => has_flag fl (Clear rd))); [reflexivity|].
    intros fl c. now rewrite count_flags_clears.
  - rewrite (count_actions_measure (fun c => copies (stats c))
               (fun fl => has_flag fl (Copy rd))); [reflexivity|].
    intros fl c. now rewrite count_flags_copies.
  - rewrite (count_actions_measure (fun c => presents (stats c))
               (fun fl => has_flag fl (Present rd))); [reflexivity|].
    intros fl c. now rewrite count_flags_presents.
  - rewrite (count_actions_measure (fun c => markers (stats c))
               (fun fl => has_flag fl (PushMarker rd) ||
                          has_flag fl (SetMarker rd))); [reflexivity|].
    intros fl c. now rewrite count_flags_markers.
Qed.

End SummaryCounts.

(** ** The top-level markers of the frame summary *)

Section TopLevelMarkers.

Variable rd : ActionFlags.

Lemma top_level_markers_fold l acc :
  fold_left
    (fun top_markers action =>
       if has_flag (flags action) (PushMarker rd)
       then top_markers ++
            [mkTopMarker (name action) (eventId action) (count_children action)]
       else top_markers) l acc =
  acc ++ map (fun a => mkTopMarker (name a) (eventId a) (count_children a))
           (filter (fun a => has_flag (flags a) (PushMarker rd)) l).
Proof.
  revert acc. induction l as [|a l IH]; intros acc; cbn [fold_left filter].
  - now rewrite app_nil_r.
  - rewrite IH. destruct (has_flag (flags a) (PushMarker rd)); [|reflexivity].
    cbn [map]. now rewrite <- app_assoc.
Qed.

Lemma flatten_action_size a :
  Z.of_nat (List.length (flatten_action a)) = 1 + count_children a.
Proof.
  rewrite count_children_flatten. destruct a as [e i n f x y kids].
  rewrite flatten_action_eq. cbn [List.length children]. lia.
Qed.

Lemma subtree_sizes_bound (keep : Action -> bool) l :
  fold_right (fun a acc => 1 + count_children a + acc) 0 (filter keep l) <=
  Z.of_nat (List.length (flatten_actions l)).
Proof.
  induction l as [|a l IH]; [cbn; lia|].
  unfold flatten_actions in *. cbn [flat_map filter].
  rewrite length_app, Nat2Z.inj_add, flatten_action_size.
  pose proof (count_children_flatten a) as Hc.
  destruct (keep a); cbn [fold_right]; lia.
Qed.

(** X7: [top_level_markers] lists the root actions whose PushMarker bit is
    set, in their order and no others, each with its name, its event id and
    the number of nodes below it; the listed markers and their subtrees are
    together no more than [total_actions] nodes. *)
Theorem top_level_markers_are_root_pushes api textures buffers root_actions :
  let summary := get_frame_summary rd api textures buffers root_actions in
  sum_top_level_markers summary =
    map (fun a => mkTopMarker (name a) (eventId a)
                    (Z.of_nat (List.length (flatten_actions (children a)))))
      (filter (fun a => has_flag (flags a) (PushMarker rd)) root_actions)
  /\ fold_right (fun m acc => 1 + child_count m + acc) 0
       (sum_top_level_markers summary) <= sum_total_actions summary.
Proof.
  intros summary.
  assert (Htop : sum_top_level_markers summary =
                 map (fun a => mkTopMarker (name a) (eventId a) (count_children a))
                   (filter (fun a => has_flag (flags a) (PushMarker rd))
                      root_actions)).
  { subst summary. unfold get_frame_summary, top_level_markers.
    cbn [sum_top_level_markers]. now rewrite top_level_markers_fold. }
  split.
  - rewrite Htop. apply map_ext. intros a. now rewrite count_children_flatten.
  - rewrite Htop.
    assert (Htotal : sum_total_actions summary =
                     Z.of_nat (List.length (flatten_actions root_actions))).
    { subst summary. unfold get_frame_summary. cbn [sum_total_actions].
      rewrite (count_actions_measure rd total_actions (fun _ => true)).
      - cbn. f_equal. f_equal.
        induction (flatten_actions root_actions) as [|a l IH];
          [reflexivity | cbn; now rewrite IH].
      - intros fl c. now rewrite count_flags_total. }
    rewrite Htotal.
    eapply Z.le_trans; [|apply (subtree_sizes_bound
                                  (fun a => has_flag (flags a) (PushMarker rd)))].
    apply Z.eq_le_incl. clear Htop Htotal.
    induction (filter (fun a => has_flag (flags a) (PushMarker rd)) root_actions)
      as [|a l IH]; [reflexivity|].
    cbn [map fold_right child_count]. f_equal. exact IH.
Qed.

End TopLevelMarkers.

(** ** Shader stage names *)

(** X8: [parse_stage] accepts exactly the six stage names, in any mix of
    upper and lower case, and answers the stage of that name; on any other
    string it raises [ValueError] with the string as given; the stages it
    can answer are those of [Helpers.get_all_shader_stages], each answered
    for its own name. *)
Theorem parse_stage_accepts_names stage_str :
  (forall stage,
      parse_stage stage_str = Ok stage <-> lower stage_str = stage_name stage)
  /\ ((forall stage, lower stage_str <> stage_name stage) ->
      parse_stage stage_str =
      ValueError (String.append "Unknown shader stage: " stage_str))
  /\ (forall stage,
        In stage get_all_shader_stages /\
        parse_stage (stage_name stage) = Ok stage).
Proof.
  assert (Hiff : forall stage,
             parse_stage stage_str = Ok stage <->
             lower stage_str = stage_name stage).
  { intros stage. unfold parse_stage, stage_map. cbn [dict_get].
    repeat match goal with
           | |- context [String.eqb ?a ?b] => destruct (String.eqb_spec a b)
           end;
      destruct stage; cbn [stage_name]; split; intros H;
      try reflexivity; try discriminate; try congruence. }
  split; [exact Hiff|]. split.
  - intros Hnone. unfold parse_stage.
    destruct (dict_get (lower stage_str) stage_map) as [stage|] eqn:Hget;
      [|reflexivity].
    exfalso. apply (Hnone stage). apply Hiff.
    unfold parse_stage. now rewrite Hget.
  - intros stage. split; destruct stage; cbn; tauto.
Qed.

Lemma parse_stage_accepts_names_witness :
  parse_stage "Pixel" = Ok Pixel /\
  parse_stage "fragment" = ValueError "Unknown shader stage: fragment".
Proof.
  destruct (parse_stage_accepts_names "Pixel") as (Hok & _ & _).
  destruct (parse_stage_accepts_names "fragment") as (_ & Herr & _).
  split.
  - apply Hok. reflexivity.
  - apply Herr. intros stage. destruct stage; discriminate.
Defined.

(** ** Resource id strings *)

Lemma prefix_colons c c' r :
  String.prefix "::" (String c (String c' r)) =
  Ascii.eqb c ":" && Ascii.eqb c' ":".
Proof.
  cbn [String.prefix].
  destruct (ascii_dec ":" c) as [<-|Hc].
  - destruct (ascii_dec ":" c') as [<-|Hc']; [now destruct r|].
    destruct (Ascii.eqb_spec c' ":"); [congruence|reflexivity].
  - destruct (Ascii.eqb_spec c ":"); [congruence|reflexivity].
Qed.

Lemma prefix_colon c r :
  String.prefix ":" (String c r) = Ascii.eqb c ":".
Proof.
  cbn [String.prefix].
  destruct (ascii_dec ":" c) as [<-|Hc]; [now destruct r|].
  destruct (Ascii.eqb_spec c ":"); [congruence|reflexivity].
Qed.

Lemma split_colons_step c c' rest' :
  split_colons (String c (String c' rest')) =
  if Ascii.eqb c ":" && Ascii.eqb c' ":"
  then EmptyString :: split_colons rest'
  else match split_colons (String c' rest') with
       | piece :: pieces => String c piece :: pieces
       | [] => [String c EmptyString]
       end.
Proof. reflexivity. Qed.

(** A string without ["::"] is a single piece. *)
Lemma split_colons_single t :
  contains "::" t = false -> split_colons t = [t].
Proof.
  induction t as [|c rest IH]; [reflexivity|].
  intros Hno. destruct rest as [|c' rest']; [reflexivity|].
  cbn [contains] in Hno. apply orb_false_iff in Hno.
  destruct Hno as [Hpre Hrest].
  rewrite prefix_colons in Hpre.
  rewrite split_colons_step, Hpre, IH; [reflexivity|].
  cbn [contains]. exact Hrest.
Qed.

(** A colon-free prefix, the separator, and a remainder without separator
    are split into the prefix and the remainder. *)
Lemma split_colons_prefixed p t :
  contains ":" p = false -> contains "::" t = false ->
  split_colons (String.append p (String.append "::" t)) = [p; t].
Proof.
  intros Hp Ht. induction p as [|c p' IH].
  - cbn [String.append]. rewrite split_colons_step. cbn [Ascii.eqb Bool.eqb andb].
    now rewrite (split_colons_single t Ht).
  - cbn [contains] in Hp. apply orb_false_iff in Hp.
    destruct Hp as [Hc Hp']. rewrite prefix_colon in Hc.
    specialize (IH Hp').
    change (String.append (String c p') (String.append "::" t))
      with (String c (String.append p' (String.append "::" t))).
    destruct (String.append p' (String.append "::" t)) as [|c' rest'] eqn:Hrest.
    + destruct p'; discriminate.
    + rewrite split_colons_step, Hc. cbn [andb]. now rewrite IH.
Qed.

Section ResourceIdStrings.

Variable py_int : string -> Result Z.

Lemma extract_numeric_id_last s :
  extract_numeric_id py_int s =
  py_int (last (split_colons s) EmptyString).
Proof.
  unfold extract_numeric_id.
  destruct (contains "::" s) eqn:Hc; [reflexivity|].
  now rewrite (split_colons_single s Hc).
Qed.

(** X9: a resource id written with a colon-free prefix and ["::"], as in
    "ResourceId::123", is read like the bare text after the separator:
    [extract_numeric_id] gives the same number, or the same error, for
    both; and [parse_resource_id] reads every string to the id that
    [extract_numeric_id] gives, failing exactly when it fails. *)
Theorem resource_id_prefix_is_ignored :
  (forall p t,
      contains ":" p = false -> contains "::" t = false ->
      extract_numeric_id py_int (String.append p (String.append "::" t)) =
        py_int t /\
      extract_numeric_id py_int t = py_int t)
  /\ (forall s,
        parse_resource_id py_int s =
        match extract_numeric_id py_int s with
        | Ok n => Ok (mkResourceId n)
        | ValueError msg => ValueError msg
        end).
Proof.
  split.
  - intros p t Hp Ht. rewrite !extract_numeric_id_last.
    now rewrite (split_colons_prefixed p t Hp Ht), (split_colons_single t Ht).
  - intros s. unfold parse_resource_id, extract_numeric_id.
    now destruct (contains "::" s).
Qed.

End ResourceIdStrings.

Lemma resource_id_prefix_is_ignored_witness :
  extract_numeric_id decimal_int "ResourceId::123" = Ok 123 /\
  extract_numeric_id decimal_int "123" = Ok 123.
Proof.
  exact (proj1 (resource_id_prefix_is_ignored decimal_int)
           "ResourceId" "123" eq_refl eq_refl).
Defined.

(** ** Finding a texture *)

Section FindTexture.

Variable py_int : string -> Result Z.
Variable str_rid : ResourceId -> string.

Lemma find_texture_loop_find textures n :
  (forall tex, In tex textures ->
     extract_numeric_id py_int (str_rid (tex_resourceId tex)) =
     Ok (rid_id (tex_resourceId tex))) ->
  find_texture_loop py_int str_rid n textures =
  Ok (find (fun tex => rid_id (tex_resourceId tex) =? n) textures).
Proof.
  induction textures as [|tex rest IH]; intros Hstr; [reflexivity|].
  cbn [find_texture_loop find].
  rewrite (Hstr tex (or_introl eq_refl)).
  destruct (rid_id (tex_resourceId tex) =? n); [reflexivity|].
  apply IH. intros t Ht. apply Hstr. now right.
Qed.

Lemma find_texture_loop_first n earlier tex later :
  (forall t, In t earlier ->
     exists k, extract_numeric_id py_int (str_rid (tex_resourceId t)) = Ok k /\
               k <> n) ->
  extract_numeric_id py_int (str_rid (tex_resourceId tex)) = Ok n ->
  find_texture_loop py_int str_rid n (earlier ++ tex :: later) = Ok (Some tex).
Proof.
  intros Hearlier Htex.
  induction earlier as [|t earlier IH]; cbn [app find_texture_loop].
  - now rewrite Htex, Z.eqb_refl.
  - destruct (Hearlier t (or_introl eq_refl)) as (k & -> & Hk).
    apply Z.eqb_neq in Hk. rewrite Hk.
    apply IH. intros t' Ht'. apply Hearlier. now right.
Qed.

(** X10: [_find_texture_by_id] raises the error of [int] on a request
    that cannot be read, whatever the textures are.  On a request that
    reads as [n] it answers the first texture whose printed id reads as
    [n]: the printed ids of the textures before it must read as other
    numbers, and those of the textures after it are not looked at.  When
    the engine prints the id of every texture in a form that
    [extract_numeric_id] reads back, that is the first texture whose id is
    [n], and [None] when no texture has that id. *)
Theorem find_texture_first_match textures resource_id :
  (forall msg,
      extract_numeric_id py_int resource_id = ValueError msg ->
      _find_texture_by_id py_int str_rid textures resource_id =
        ValueError msg)
  /\ (forall n earlier tex later,
        extract_numeric_id py_int resource_id = Ok n ->
        textures = earlier ++ tex :: later ->
        (forall t, In t earlier ->
           exists k,
             extract_numeric_id py_int (str_rid (tex_resourceId t)) = Ok k /\
             k <> n) ->
        extract_numeric_id py_int (str_rid (tex_resourceId tex)) = Ok n ->
        _find_texture_by_id py_int str_rid textures resource_id =
          Ok (Some tex))
  /\ ((forall tex, In tex textures ->
         extract_numeric_id py_int (str_rid (tex_resourceId tex)) =
         Ok (rid_id (tex_resourceId tex))) ->
      forall n,
        extract_numeric_id py_int resource_id = Ok n ->
        _find_texture_by_id py_int str_rid textures resource_id =
          Ok (find (fun tex => rid_id (tex_resourceId tex) =? n) textures)
        /\ (forall tex,
              _find_texture_by_id py_int str_rid textures resource_id =
                Ok (Some tex) ->
              In tex textures /\ rid_id (tex_resourceId tex) = n)
        /\ (_find_texture_by_id py_int str_rid textures resource_id =
              Ok None ->
            forall tex, In tex textures ->
                        rid_id (tex_resourceId tex) <> n)).
Proof.
  split; [|split].
  - intros msg Herr. unfold _find_texture_by_id. now rewrite Herr.
  - intros n earlier tex later Hn -> Hearlier Htex.
    unfold _find_texture_by_id. rewrite Hn.
    now apply find_texture_loop_first.
  - intros Hstr n Hn.
    assert (Hfind : _find_texture_by_id py_int str_rid textures resource_id =
                    Ok (find (fun tex => rid_id (tex_resourceId tex) =? n)
                          textures)).
    { unfold _find_texture_by_id. rewrite Hn.
      now apply find_texture_loop_find. }
    split; [exact Hfind|]. rewrite Hfind. split.
    + intros tex Heq. injection Heq as Heq. apply find_some in Heq.
      destruct Heq as [Hin Hid]. split; [exact Hin|].
      now apply Z.eqb_eq.
    + intros Heq tex Hin. injection Heq as Heq.
      pose proof (find_none _ _ Heq tex Hin) as Hne. cbn beta in Hne.
      now apply Z.eqb_neq.
Qed.

End FindTexture.

Lemma find_texture_first_match_witness :
  let str_rid r := String.append "ResourceId::" (fmt_d (rid_id r)) in
  let textures :=
    [mkTexture (mkResourceId 7) 64 64 1 1 7 "R8G8B8A8_UNORM" "Texture2D" 1
       16384 false;
     mkTexture (mkResourceId 12) 16 16 16 1 5 "R32_FLOAT" "Texture3D" 1
       16384 false] in
  _find_texture_by_id decimal_int str_rid textures "ResourceId::12" =
  Ok (Some (mkTexture (mkResourceId 12) 16 16 16 1 5 "R32_FLOAT" "Texture3D" 1
              16384 false)).
Proof.
  intros str_rid textures.
  refine (proj1 (proj2 (proj2 (find_texture_first_match decimal_int str_rid
                                 textures "ResourceId::12")) _ 12 eq_refl)).
  intros tex [<-|[<-|[]]]; reflexivity.
Defined.

(** ** Texture data *)

Lemma py_slice_length {A : Type} (data : list A) start stop :
  0 <= start <= stop -> stop <= Z.of_nat (List.length data) ->
  Z.of_nat (List.length (py_slice data start stop)) = stop - start.
Proof.
  intros Hs Hl. unfold py_slice. rewrite length_firstn, length_skipn. lia.
Qed.

Lemma firstn_plus {A : Type} (n m : nat) (l : list A) :
  firstn (n + m) l = firstn n l ++ firstn m (skipn n l).
Proof.
  revert l. induction n as [|n IH]; intros l; [reflexivity|].
  destruct l as [|x l]; cbn [Nat.add firstn skipn app].
  - now rewrite firstn_nil.
  - now rewrite IH.
Qed.

(** Consecutive pieces of equal size make up the front of the data. *)
Lemma pieces_tile {A : Type} (data : list A) (size count : nat) :
  flat_map (fun k => firstn size (skipn (k * size) data)) (seq 0 count) =
  firstn (count * size) data.
Proof.
  induction count as [|count IH]; [reflexivity|].
  rewrite seq_S, flat_map_app, IH. cbn [flat_map Nat.add].
  rewrite app_nil_r.
  replace (S count * size)%nat with (count * size + size)%nat by lia.
  now rewrite firstn_plus.
Qed.

Section TextureData.

Variable py_int : string -> Result Z.
Variable str_rid : ResourceId -> string.
Variable b64encode : list Byte.byte -> string.
Variable GetTextureData : ResourceId -> Z -> Z -> Z -> Result (list Byte.byte).

(** X11: an answer of [get_texture_data] is only given for a loaded
    capture, a texture that was found, a mip level of that texture, a
    slice and a sample that are not negative (and below the number of
    slices or samples when the texture has more than one), and a
    [depth_slice] only for a 3D texture and inside the depth of the mip;
    the width, height and depth it reports are at least 1. *)
Theorem get_texture_data_validated loaded textures resource_id
    mip slice sample depth_slice td :
  get_texture_data py_int str_rid b64encode GetTextureData loaded textures
    resource_id mip slice sample depth_slice = Ok td ->
  loaded = true /\
  exists tex,
    _find_texture_by_id py_int str_rid textures resource_id = Ok (Some tex) /\
    0 <= mip < tex_mips tex /\
    0 <= slice /\
    (forall max_slices,
        max_slices = (if tex_cubemap tex then tex_arraysize tex * 6
                      else tex_arraysize tex) ->
        max_slices > 1 -> slice < max_slices) /\
    0 <= sample /\
    (tex_msSamp tex > 1 -> sample < tex_msSamp tex) /\
    1 <= td_width td /\ 1 <= td_height td /\ 1 <= td_depth td /\
    1 <= td_total_depth td /\
    (forall d, depth_slice = Some d ->
               td_is_3d td = true /\ 0 <= d < td_total_depth td /\
               td_depth td = 1).
Proof.
  intros H. unfold get_texture_data in H.
  destruct loaded; [|discriminate]. cbn [negb] in H.
  split; [reflexivity|].
  destruct (_find_texture_by_id py_int str_rid textures resource_id)
    as [[tex|]|] eqn:Hfind; try discriminate.
  exists tex. split; [reflexivity|].
  destruct ((mip <? 0) || (mip >=? tex_mips tex)) eqn:Hmip; [discriminate|].
  cbv zeta in H.
  match type of H with context [if ?b then ValueError _ else _] =>
    destruct b eqn:Hslice; [discriminate|] end.
  match type of H with context [if ?b then ValueError _ else _] =>
    destruct b eqn:Hsample; [discriminate|] end.
  apply orb_false_iff in Hmip. destruct Hmip as [Hm1 Hm2].
  apply orb_false_iff in Hslice. destruct Hslice as [Hs1 Hs2].
  apply orb_false_iff in Hsample. destruct Hsample as [Ha1 Ha2].
  apply Z.ltb_ge in Hm1, Hs1, Ha1.
  rewrite Z.geb_leb in Hm2. apply Z.leb_gt in Hm2.
  assert (Hslices : forall max_slices,
             max_slices = (if tex_cubemap tex then tex_arraysize tex * 6
                           else tex_arraysize tex) ->
             max_slices > 1 -> slice < max_slices).
  { intros ms -> Hgt. apply andb_false_iff in Hs2.
    destruct Hs2 as [Hs2|Hs2].
    - rewrite Z.gtb_ltb in Hs2. apply Z.ltb_ge in Hs2. lia.
    - rewrite Z.geb_leb in Hs2. apply Z.leb_gt in Hs2. exact Hs2. }
  assert (Hsamples : tex_msSamp tex > 1 -> sample < tex_msSamp tex).
  { intros Hgt. apply andb_false_iff in Ha2. destruct Ha2 as [Ha2|Ha2].
    - rewrite Z.gtb_ltb in Ha2. apply Z.ltb_ge in Ha2. lia.
    - rewrite Z.geb_leb in Ha2. apply Z.leb_gt in Ha2. exact Ha2. }
  repeat (split; [first [lia | assumption]|]).
  destruct depth_slice as [d|].
  - destruct (tex_depth tex >? 1) eqn:H3d; cbn [negb] in H; [|discriminate].
    match type of H with context [if ?b then Some _ else None] =>
      destruct b eqn:Hd; [discriminate|] end.
    destruct (GetTextureData (tex_resourceId tex) mip slice sample);
      [|discriminate].
    injection H as <-. cbn [td_width td_height td_depth td_total_depth td_is_3d].
    apply orb_false_iff in Hd. destruct Hd as [Hd1 Hd2].
    apply Z.ltb_ge in Hd1. rewrite Z.geb_leb in Hd2. apply Z.leb_gt in Hd2.
    do 4 (split; [lia|]).
    intros d' Hd'. injection Hd' as <-.
    split; [reflexivity|]. split; [lia|reflexivity].
  - destruct (GetTextureData (tex_resourceId tex) mip slice sample);
      [|discriminate].
    injection H as <-. cbn [td_width td_height td_depth td_total_depth td_is_3d].
    destruct (tex_depth tex >? 1); do 4 (split; [lia|]);
      intros d' Hd'; discriminate.
Qed.

Lemma py_slice_piece {A : Type} (data : list A) (k : nat) size :
  0 <= size ->
  py_slice data (Z.of_nat k * size) (Z.of_nat k * size + size) =
  firstn (Z.to_nat size) (skipn (k * Z.to_nat size) data).
Proof.
  intros Hsize. unfold py_slice. f_equal.
  - rewrite Z2Nat.inj_add by lia. lia.
  - f_equal. rewrite Z2Nat.inj_mul by lia. now rewrite Nat2Z.id.
Qed.

(** X12: a requested [depth_slice] of a 3D texture is answered with
    exactly one piece of the fetched data, of size (number of bytes) //
    (depth of the mip), never a shorter one; the pieces of the depth
    slices 0, 1, ... of a mip, put one after the other, are the front of
    the fetched data, of length depth times that size. *)
Theorem depth_slices_tile_the_data loaded textures resource_id
    mip slice sample d td :
  get_texture_data py_int str_rid b64encode GetTextureData loaded textures
    resource_id mip slice sample (Some d) = Ok td ->
  exists tex fetched,
    _find_texture_by_id py_int str_rid textures resource_id = Ok (Some tex) /\
    GetTextureData (tex_resourceId tex) mip slice sample = Ok fetched /\
    let depth := td_total_depth td in
    let size := Z.of_nat (List.length fetched) / depth in
    td_data_length td = size /\
    td_content_base64 td =
      b64encode (py_slice fetched (d * size) (d * size + size)) /\
    flat_map (fun k => py_slice fetched (Z.of_nat k * size)
                         (Z.of_nat k * size + size))
      (seq 0 (Z.to_nat depth)) =
    firstn (Z.to_nat (depth * size)) fetched.
Proof.
  intros H. unfold get_texture_data in H.
  destruct loaded; [|discriminate]. cbn [negb] in H.
  destruct (_find_texture_by_id py_int str_rid textures resource_id)
    as [[tex|]|] eqn:Hfind; try discriminate.
  destruct ((mip <? 0) || (mip >=? tex_mips tex)); [discriminate|].
  cbv zeta in H.
  match type of H with context [if ?b then ValueError _ else _] =>
    destruct b; [discriminate|] end.
  match type of H with context [if ?b then ValueError _ else _] =>
    destruct b; [discriminate|] end.
  destruct (tex_depth tex >? 1) eqn:H3d; cbn [negb] in H; [|discriminate].
  match type of H with context [if ?b then Some _ else None] =>
    destruct b eqn:Hd; [discriminate|] end.
  destruct (GetTextureData (tex_resourceId tex) mip slice sample)
    as [fetched|] eqn:Hfetch; [|discriminate].
  injection H as <-. exists tex, fetched.
  split; [reflexivity|]. split; [exact Hfetch|].
  cbn [td_total_depth td_data_length td_content_base64].
  apply orb_false_iff in Hd. destruct Hd as [Hd1 Hd2].
  apply Z.ltb_ge in Hd1. rewrite Z.geb_leb in Hd2. apply Z.leb_gt in Hd2.
  set (depth := Z.max 1 (Z.shiftr (tex_depth tex) mip)) in *.
  set (len := Z.of_nat (List.length fetched)).
  assert (Hdepth : 1 <= depth) by (subst depth; lia).
  assert (Hsize : 0 <= len / depth) by (apply Z.div_pos; lia).
  assert (Hfit : depth * (len / depth) <= len) by (apply Z.mul_div_le; lia).
  split; [|split].
  - rewrite py_slice_length; [lia| nia | fold len; nia].
  - reflexivity.
  - rewrite (flat_map_ext _ (fun k => firstn (Z.to_nat (len / depth))
                                    (skipn (k * Z.to_nat (len / depth)) fetched)))
      by (intros k; now apply py_slice_piece).
    rewrite pieces_tile. f_equal.
    rewrite Z2Nat.inj_mul by lia. reflexivity.
Qed.

End TextureData.

(** A 2x2x2 volume of eight bytes, asked for its second depth slice. *)
Lemma get_texture_data_validated_witness :
  let engine (_ : ResourceId) (_ _ _ : Z) :=
    Ok [Byte.x00; Byte.x01; Byte.x02; Byte.x03;
        Byte.x04; Byte.x05; Byte.x06; Byte.x07] in
  let textures :=
    [mkTexture (mkResourceId 12) 2 2 2 1 2 "R8_UNORM" "Texture3D" 1 8 false] in
  exists tex,
    _find_texture_by_id decimal_int print_rid textures "12" = Ok (Some tex) /\
    0 <= 0 < tex_mips tex.
Proof.
  intros engine textures.
  destruct (get_texture_data_validated decimal_int print_rid base64 engine
              true textures "12" 0 0 0 (Some 1)
              (mkTextureData "12" 2 2 1 0 0 0 (Some 1) "R8_UNORM" "Texture3D"
                 true 2 4 "BAUGBw==") eq_refl)
    as (_ & tex & Hfind & Hmip & _).
  exists tex. split; assumption.
Defined.

Lemma depth_slices_tile_the_data_witness :
  let fetched :=
    [Byte.x00; Byte.x01; Byte.x02; Byte.x03;
     Byte.x04; Byte.x05; Byte.x06; Byte.x07] in
  let engine (_ : ResourceId) (_ _ _ : Z) := Ok fetched in
  let textures :=
    [mkTexture (mkResourceId 12) 2 2 2 1 2 "R8_UNORM" "Texture3D" 1 8 false] in
  exists tex data,
    _find_texture_by_id decimal_int print_rid textures "12" = Ok (Some tex) /\
    engine (tex_resourceId tex) 0 0 0 = Ok data /\
    4 = Z.of_nat (List.length data) / 2.
Proof.
  intros fetched engine textures.
  destruct (depth_slices_tile_the_data decimal_int print_rid base64 engine
              true textures "12" 0 0 0 1
              (mkTextureData "12" 2 2 1 0 0 0 (Some 1) "R8_UNORM" "Texture3D"
                 true 2 4 "BAUGBw==") eq_refl)
    as (tex & data & Hfind & Hfetch & Hlen & _).
  exists tex, data. repeat split; assumption.
Defined.

(** ** The outputs of a draw call *)

Lemma subseq_filter {A : Type} (f : A -> bool) (l : list A) :
  subseq (filter f l) l.
Proof.
  induction l as [|x l IH]; cbn [filter]; [constructor|].
  destruct (f x); constructor; exact IH.
Qed.

Lemma subseq_map {A B : Type} (g : A -> B) (l1 l2 : list A) :
  subseq l1 l2 -> subseq (map g l1) (map g l2).
Proof. induction 1; cbn [map]; constructor; assumption. Qed.

Lemma subseq_StronglySorted {A : Type} (R : A -> A -> Prop) (l1 l2 : list A) :
  subseq l1 l2 -> StronglySorted R l2 -> StronglySorted R l1.
Proof.
  induction 1 as [|x l1 l2 Hs IH|x l1 l2 Hs IH]; intros Hsorted.
  - constructor.
  - inversion Hsorted; subst. auto.
  - inversion Hsorted as [|? ? Hrest Hall]; subst. constructor; [auto|].
    rewrite Forall_forall in *. intros y Hy. apply Hall.
    now apply (subseq_In l1 l2).
Qed.

Lemma in_enumerate_from {A : Type} (l : list A) :
  forall start i x,
    In (i, x) (enumerate_from start l) <->
    start <= i /\ nth_error l (Z.to_nat (i - start)) = Some x.
Proof.
  induction l as [|y rest IH]; intros start i x; cbn [enumerate_from In].
  - split; [tauto|]. intros [_ H]. now destruct (Z.to_nat (i - start)).
  - rewrite IH. split.
    + intros [Heq|[Hle Hnth]].
      * injection Heq as <- <-. split; [lia|].
        now replace (Z.to_nat (start - start)) with 0%nat by lia.
      * split; [lia|].
        replace (Z.to_nat (i - start)) with (S (Z.to_nat (i - (start + 1))))
          by lia.
        exact Hnth.
    + intros [Hle Hnth]. destruct (Z.eq_dec i start) as [->|Hne].
      * left. replace (Z.to_nat (start - start)) with 0%nat in Hnth by lia.
        cbn in Hnth. now injection Hnth as <-.
      * right. split; [lia|].
        replace (Z.to_nat (i - start)) with (S (Z.to_nat (i - (start + 1))))
          in Hnth by lia.
        exact Hnth.
Qed.

Lemma enumerate_from_sorted {A : Type} (l : list A) :
  forall start, StronglySorted Z.lt (map fst (enumerate_from start l)).
Proof.
  induction l as [|y rest IH]; intros start; cbn [enumerate_from map fst];
    constructor; [apply IH|].
  apply Forall_forall. intros i Hi. apply in_map_iff in Hi.
  destruct Hi as ([j x] & <- & Hin). apply in_enumerate_from in Hin.
  cbn [fst]. lia.
Qed.

Section DrawCallOutputs.

Variable rd : ActionFlags.
Variable Null : ResourceId.
Variable str_rid : ResourceId -> string.
Variable GetAction : Z -> option ActionDescription.

Lemma list_outputs_filter outs :
  list_outputs Null str_rid outs =
  map (fun e => (fst e, str_rid (snd e)))
    (filter (fun e => negb (rid_eqb (snd e) Null)) (enumerate_from 0 outs)).
Proof.
  unfold list_outputs.
  assert (H : forall l acc,
             fold_left
               (fun acc (entry : Z * ResourceId) =>
                  if negb (rid_eqb (snd entry) Null)
                  then acc ++ [(fst entry, str_rid (snd entry))]
                  else acc) l acc =
             acc ++ map (fun e => (fst e, str_rid (snd e)))
                      (filter (fun e => negb (rid_eqb (snd e) Null)) l)).
  { induction l as [|e l IH]; intros acc; cbn [fold_left filter].
    - now rewrite app_nil_r.
    - rewrite IH. destruct (negb (rid_eqb (snd e) Null)); [|reflexivity].
      cbn [map]. now rewrite <- app_assoc. }
  now rewrite H.
Qed.

(** X13: with a capture loaded, [get_draw_call_details] leaves the replay
    at the requested event, also when it raises for want of an action
    there; the outputs it lists are exactly the non-null entries of
    [action.outputs], each under its position in that list, in increasing
    order of position; and ["depth_output"] is left out exactly when the
    depth output is null. *)
Theorem draw_call_details_outputs frame_event event_id :
  fst (get_draw_call_details rd Null str_rid GetAction true frame_event
         event_id) = event_id
  /\ (forall details,
        snd (get_draw_call_details rd Null str_rid GetAction true frame_event
               event_id) = Ok details ->
        exists action,
          GetAction event_id = Some action /\
          (forall i s,
              In (i, s) (dd_outputs details) <->
              exists o,
                0 <= i /\ nth_error (outputs action) (Z.to_nat i) = Some o /\
                rid_eqb o Null = false /\ s = str_rid o) /\
          StronglySorted Z.lt (map fst (dd_outputs details)) /\
          (dd_depth_output details = None <->
           rid_eqb (depthOut action) Null = true)).
Proof.
  unfold get_draw_call_details. cbn [negb].
  destruct (GetAction event_id) as [action|]; cbn [fst snd];
    (split; [reflexivity|]); intros details Hd; [|discriminate].
  injection Hd as <-. exists action. split; [reflexivity|].
  cbn [dd_outputs dd_depth_output]. rewrite list_outputs_filter.
  split; [|split].
  - intros i s. rewrite in_map_iff. split.
    + intros ([j o] & Heq & Hin). cbn [fst snd] in Heq.
      injection Heq as <- <-. apply filter_In in Hin.
      destruct Hin as [Hin Hnn]. apply in_enumerate_from in Hin.
      cbn [snd] in Hnn. apply negb_true_iff in Hnn.
      exists o. replace (j - 0) with j in Hin by lia.
      destruct Hin as [Hle Hnth]. repeat split; assumption.
    + intros (o & Hle & Hnth & Hnn & ->). exists (i, o).
      split; [reflexivity|]. apply filter_In. split.
      * apply in_enumerate_from. replace (i - 0) with i by lia. now split.
      * cbn [snd]. now rewrite Hnn.
  - rewrite map_map. cbn [fst].
    apply (subseq_StronglySorted Z.lt _
             (map fst (enumerate_from 0 (outputs action)))).
    + apply subseq_map, subseq_filter.
    + apply enumerate_from_sorted.
  - destruct (rid_eqb (depthOut action) Null); cbn [negb];
      split; intros H; try reflexivity; discriminate.
Qed.

End DrawCallOutputs.

Lemma draw_call_details_outputs_witness :
  let action :=
    mkActionDescription (mkAction 5 2 "DrawIndexed(36)" 0x10002 36 1 [])
      0 0 0 0
      [mkResourceId 40; mkResourceId 0; mkResourceId 41] (mkResourceId 0) in
  exists found,
    (fun eid => if eid =? 5 then Some action else None) 5 = Some found /\
    StronglySorted Z.lt (map fst [(0, "ResourceId::40"); (2, "ResourceId::41")]).
Proof.
  intros action.
  destruct (proj2 (draw_call_details_outputs renderdoc_flags (mkResourceId 0)
                     print_rid
                     (fun eid => if eid =? 5 then Some action else None) 1 5)
              (mkDrawDetails 5 2 "DrawIndexed(36)" ["Drawcall"; "Indexed"]
                 36 1 0 0 0 0
                 [(0, "ResourceId::40"); (2, "ResourceId::41")] None)
              eq_refl)
    as (found & Hfound & _ & Hsorted & _).
  exists found. split; assumption.
Defined.

(** ** The list of captures *)

Lemma ltb_leb s1 s2 : String.ltb s1 s2 = true -> String.leb s1 s2 = true.
Proof.
  unfold String.ltb, String.leb. now destruct (String.compare s1 s2).
Qed.

Lemma not_ltb_leb s1 s2 : String.ltb s1 s2 = false -> String.leb s2 s1 = true.
Proof.
  unfold String.ltb, String.leb. rewrite (String.compare_antisym s2 s1).
  now destruct (String.compare s1 s2).
Qed.

Lemma insert_descending_perm x l : Permutation (insert_descending x l) (x :: l).
Proof.
  induction l as [|y ys IH]; cbn [insert_descending]; [reflexivity|].
  destruct (String.ltb (ci_modified_time x) (ci_modified_time y));
    [|reflexivity].
  rewrite IH. apply perm_swap.
Qed.

Lemma insert_descending_hd y x l :
  HdRel time_text_descends y l -> time_text_descends y x ->
  HdRel time_text_descends y (insert_descending x l).
Proof.
  intros Hl Hx. destruct l as [|z zs]; cbn [insert_descending].
  - now constructor.
  - destruct (String.ltb (ci_modified_time x) (ci_modified_time z)).
    + constructor. now inversion Hl.
    + now constructor.
Qed.

Lemma insert_descending_sorted x l :
  Sorted time_text_descends l -> Sorted time_text_descends (insert_descending x l).
Proof.
  induction 1 as [|y ys Hys IH Hhd]; cbn [insert_descending].
  - repeat constructor.
  - destruct (String.ltb (ci_modified_time x) (ci_modified_time y)) eqn:Hlt.
    + constructor; [exact IH|]. apply insert_descending_hd; [exact Hhd|].
      unfold time_text_descends. now apply ltb_leb.
    + constructor; [now constructor|]. constructor.
      unfold time_text_descends. now apply not_ltb_leb.
Qed.

Lemma ltb_irrefl s : String.ltb s s = false.
Proof.
  unfold String.ltb. pose proof (String.compare_antisym s s) as H.
  destruct (String.compare s s); try reflexivity; discriminate H.
Qed.

Lemma insert_descending_stable t x l :
  filter (same_time_text t) (insert_descending x l) =
  filter (same_time_text t) (x :: l).
Proof.
  induction l as [|y ys IH]; cbn [insert_descending]; [reflexivity|].
  destruct (String.ltb (ci_modified_time x) (ci_modified_time y)) eqn:Hlt;
    [|reflexivity].
  cbn [filter] in IH |- *. rewrite IH.
  destruct (same_time_text t x) eqn:Hx, (same_time_text t y) eqn:Hy;
    try reflexivity.
  unfold same_time_text in Hx, Hy.
  apply String.eqb_eq in Hx, Hy. rewrite Hx, Hy, ltb_irrefl in Hlt.
  discriminate Hlt.
Qed.

Lemma sort_descending_stable t l :
  filter (same_time_text t) (sort_descending l) =
  filter (same_time_text t) l.
Proof.
  induction l as [|x l IH]; cbn [sort_descending fold_right]; [reflexivity|].
  fold (sort_descending l). rewrite insert_descending_stable.
  cbn [filter]. now rewrite IH.
Qed.

Lemma sort_descending_perm l : Permutation (sort_descending l) l.
Proof.
  induction l as [|x l IH]; cbn [sort_descending fold_right]; [reflexivity|].
  fold (sort_descending l). now rewrite insert_descending_perm, IH.
Qed.

Lemma sort_descending_sorted l : Sorted time_text_descends (sort_descending l).
Proof.
  induction l as [|x l IH]; cbn [sort_descending fold_right]; [constructor|].
  now apply insert_descending_sorted.
Qed.

Section CaptureListing.

Variable path_join : string -> string -> string.

Lemma collect_captures_filter directory entries :
  collect_captures path_join directory entries =
  map (capture_info path_join directory) (filter is_capture_file entries).
Proof.
  unfold collect_captures.
  assert (H : forall l acc,
             fold_left
               (fun captures e =>
                  if ends_with ".rdc" (lower (de_filename e))
                  then if de_isfile e
                       then captures ++ [capture_info path_join directory e]
                       else captures
                  else captures) l acc =
             acc ++ map (capture_info path_join directory)
                      (filter is_capture_file l)).
  { induction l as [|e l IH]; intros acc; cbn [fold_left filter].
    - now rewrite app_nil_r.
    - rewrite IH. unfold is_capture_file at 2.
      destruct (ends_with ".rdc" (lower (de_filename e))), (de_isfile e);
        cbn [andb map]; try reflexivity.
      now rewrite <- app_assoc. }
  now rewrite H.
Qed.

(** X14: on a directory that exists and can be read, [list_captures]
    returns the entries whose name ends in ".rdc", in any letter case, and
    that are files: all of them and no others, with [count] their number.
    They are ordered by the text of their modification time, compared as
    a string, greatest first (which is the order of the times themselves
    only as far as the order of the texts is), and the entries whose texts
    are equal keep the order of the listing.  A directory that does not
    exist, or an exception of the file system, gives a [ValueError]. *)
Theorem list_captures_sorted_rdc_files directory :
  (forall listing,
      list_captures path_join directory false listing =
      ValueError (String.append "Directory not found: " directory))
  /\ (forall e,
        list_captures path_join directory true (ValueError e) =
        ValueError (String.append "Failed to list directory: " e))
  /\ (forall entries,
        exists answer,
          list_captures path_join directory true (Ok entries) = Ok answer /\
          cl_directory answer = directory /\
          cl_count answer = Z.of_nat (List.length (cl_captures answer)) /\
          Permutation (cl_captures answer)
            (map (capture_info path_join directory)
               (filter is_capture_file entries)) /\
          Sorted time_text_descends (cl_captures answer) /\
          (forall t,
              filter (same_time_text t) (cl_captures answer) =
              filter (same_time_text t)
                (map (capture_info path_join directory)
                   (filter is_capture_file entries))) /\
          (forall c, In c (cl_captures answer) ->
                     ends_with ".rdc" (lower (ci_filename c)) = true)).
Proof.
  split; [reflexivity|]. split; [reflexivity|].
  intros entries. eexists. split; [reflexivity|].
  cbn [cl_directory cl_count cl_captures].
  split; [reflexivity|]. split; [reflexivity|].
  assert (Hperm : Permutation
                    (sort_descending
                       (collect_captures path_join directory entries))
                    (map (capture_info path_join directory)
                       (filter is_capture_file entries))).
  { rewrite sort_descending_perm. now rewrite collect_captures_filter. }
  split; [exact Hperm|]. split; [apply sort_descending_sorted|].
  split.
  { intros t. rewrite sort_descending_stable.
    now rewrite collect_captures_filter. }
  intros c Hc. apply (Permutation_in _ Hperm) in Hc.
  apply in_map_iff in Hc. destruct Hc as (e & <- & He).
  apply filter_In in He. destruct He as [_ He].
  unfold is_capture_file in He. apply andb_true_iff in He.
  cbn [capture_info ci_filename]. tauto.
Qed.

End CaptureListing.

(** A directory with two captures and a text file. *)
Lemma list_captures_sorted_rdc_files_witness :
  let join d f := String.append d (String.append "/" f) in
  let entries :=
    [mkDirEntry "first.rdc" true 10 "2024-01-05T10:00:00";
     mkDirEntry "notes.txt" true 1 "2024-03-01T09:30:00";
     mkDirEntry "SECOND.RDC" true 20 "2024-02-11T18:45:00"] in
  In (mkCaptureInfo "SECOND.RDC" "caps/SECOND.RDC" 20 "2024-02-11T18:45:00")
     (map (capture_info join "caps") (filter is_capture_file entries))
  /\ ends_with ".rdc" (lower "SECOND.RDC") = true.
Proof.
  intros join entries.
  destruct (proj2 (proj2 (list_captures_sorted_rdc_files join "caps")) entries)
    as (answer & Hanswer & _ & _ & Hperm & _ & _ & Hall).
  assert (Hin : In (mkCaptureInfo "SECOND.RDC" "caps/SECOND.RDC" 20
                      "2024-02-11T18:45:00")
                   (map (capture_info join "caps")
                      (filter is_capture_file entries)))
    by (vm_compute; right; left; reflexivity).
  split; [exact Hin|].
  apply (Hall (mkCaptureInfo "SECOND.RDC" "caps/SECOND.RDC" 20
                 "2024-02-11T18:45:00")).
  apply (Permutation_in _ (Permutation_sym Hperm) Hin).
Defined.

(** ** Shader variables *)

Lemma flat_map_map {A B C : Type} (f : B -> list C) (g : A -> B) l :
  flat_map f (map g l) = flat_map (fun a => f (g a)) l.
Proof.
  induction l as [|a l IH]; cbn [map flat_map]; [reflexivity|].
  now rewrite IH.
Qed.

Section VariableShape.

Variable F : Type.
Variable vt : VarTypes.
Variable str_type : Z -> string.

Lemma infos_of_serialize var :
  infos_of F (serialize_variable F vt str_type var) =
  serialize_variable F vt str_type var ::
  flat_map (fun m => infos_of F (serialize_variable F vt str_type m))
    (members var).
Proof.
  destruct var as [nm ty rows columns floats sints uints mems].
  cbn [serialize_variable infos_of members]. f_equal.
  destruct mems as [|m ms]; [reflexivity|]. cbn [nonempty].
  apply flat_map_map.
Qed.

Lemma variables_of_eq var :
  variables_of F var = var :: flat_map (variables_of F) (members var).
Proof. now destruct var. Qed.

Lemma serialize_variable_names var :
  map vi_name (infos_of F (serialize_variable F vt str_type var)) =
  map sv_name (variables_of F var).
Proof.
  induction var as [nm ty rows columns floats sints uints mems IH]
    using ShaderVariable_nested_ind.
  rewrite infos_of_serialize, variables_of_eq. cbn [map members]. f_equal.
  rewrite !map_flat_map_comm. now apply flat_map_ext_Forall.
Qed.

Lemma serialize_variable_member root :
  forall var,
    In var (variables_of F root) ->
    In (serialize_variable F vt str_type var)
       (infos_of F (serialize_variable F vt str_type root)).
Proof.
  induction root as [nm ty rows columns floats sints uints mems IH]
    using ShaderVariable_nested_ind.
  intros var. rewrite infos_of_serialize, variables_of_eq. cbn [members].
  intros [<-|Hin]; [now left|]. right.
  apply in_flat_map in Hin. destruct Hin as (m & Hm & Hin).
  apply in_flat_map. exists m. split; [exact Hm|].
  rewrite Forall_forall in IH. now apply IH.
Qed.

Lemma slice_value_some {A : Type} (wrap : list A -> VarValue F) count array v :
  slice_value F wrap count array = Some v <->
  exists l, array = Ok l /\ v = wrap (firstn count l).
Proof.
  unfold slice_value. destruct array as [l|e]; split.
  - intros Heq. injection Heq as <-. now exists l.
  - intros (l' & Heq & ->). now injection Heq as <-.
  - discriminate.
  - intros (l' & Heq & _). discriminate Heq.
Qed.

(** What the [try] block stores, case by case. *)
Lemma try_value_some ty count floats sints uints v :
  try_value F vt ty count floats sints uints = Some v <->
  (Float vt = Some ty /\
   exists l, floats = Ok l /\ v = FloatValues (firstn count l))
  \/ (exists float_type,
        Float vt = Some float_type /\ float_type <> ty /\
        Int vt = Some ty /\
        exists l, sints = Ok l /\ v = IntValues (firstn count l))
  \/ (exists float_type int_type,
        Float vt = Some float_type /\ float_type <> ty /\
        Int vt = Some int_type /\ int_type <> ty /\
        UInt vt = Some ty /\
        exists l, uints = Ok l /\ v = IntValues (firstn count l)).
Proof.
  unfold try_value.
  destruct (Float vt) as [tf|];
    [|split; [discriminate
             | intros [[H _]|[(? & H & _)|(? & ? & H & _)]]; discriminate H]].
  destruct (Z.eqb_spec ty tf) as [->|Hf].
  { rewrite slice_value_some. split.
    - intros H. left. now split.
    - intros [[_ H]|[(tf' & Heq & Hne & _)|(tf' & ? & Heq & Hne & _)]];
        [exact H | |]; injection Heq as <-; now destruct Hne. }
  destruct (Int vt) as [ti|].
  2:{ split; [discriminate|].
      intros [[Heq _]|[(? & _ & _ & H & _)|(? & ? & _ & _ & H & _)]];
        [injection Heq as ->; now destruct Hf | discriminate H
        | discriminate H]. }
  destruct (Z.eqb_spec ty ti) as [->|Hi].
  { rewrite slice_value_some. split.
    - intros H. right. left. exists tf. repeat split; try assumption.
      intros ->. now apply Hf.
    - intros [[Heq _]|[(? & _ & _ & _ & H)|(? & ti' & _ & _ & Heq & Hne & _)]].
      + injection Heq as ->. now destruct Hf.
      + exact H.
      + injection Heq as <-. now destruct Hne. }
  destruct (UInt vt) as [tu|].
  2:{ split; [discriminate|].
      intros [[Heq _]|[(? & _ & _ & Heq & _)|(? & ? & _ & _ & _ & _ & H & _)]].
      - injection Heq as ->. now destruct Hf.
      - injection Heq as ->. now destruct Hi.
      - discriminate H. }
  destruct (Z.eqb_spec ty tu) as [->|Hu].
  { rewrite slice_value_some. split.
    - intros H. right. right. exists tf, ti.
      repeat split; try assumption; intros ->; [now apply Hf | now apply Hi].
    - intros [[Heq _]|[(? & _ & _ & Heq & _)|(? & ? & _ & _ & _ & _ & _ & H)]].
      + injection Heq as ->. now destruct Hf.
      + injection Heq as ->. now destruct Hi.
      + exact H. }
  split; [discriminate|].
  intros [[Heq _]|[(? & _ & _ & Heq & _)|(? & ? & _ & _ & _ & _ & Heq & _)]];
    injection Heq as ->; [now destruct Hf | now destruct Hi | now destruct Hu].
Qed.

(** X15: [serialize_variables] keeps the shape of the variables: one
    dictionary for each variable, at every depth and in the same order,
    with its name, the text of its type, its rows and its columns;
    ["members"] is present exactly when the variable has members.
    ["value"] is present exactly when the [try] block comes to store it:
    the type of the variable is the first of [rd.VarType.Float],
    [rd.VarType.Int] and [rd.VarType.UInt] that it equals, every member
    compared before exists, and the array of that type could be read; the
    value is then the first rows * columns entries of the array.  So when
    [rd.VarType] has no member [Int], only the variables of type [Float]
    get a value. *)
Theorem serialize_variables_keeps_shape variables :
  let out := serialize_variables F vt str_type variables in
  List.length out = List.length variables
  /\ map vi_name (flat_map (infos_of F) out) =
     map sv_name (flat_map (variables_of F) variables)
  /\ (forall var,
        In var (flat_map (variables_of F) variables) ->
        let info := serialize_variable F vt str_type var in
        let count := (sv_rows var * sv_columns var)%nat in
        In info (flat_map (infos_of F) out) /\
        vi_name info = sv_name var /\
        vi_type info = str_type (sv_type var) /\
        vi_rows info = sv_rows var /\ vi_columns info = sv_columns var /\
        (vi_members info = None <-> members var = []) /\
        (forall v,
            vi_value info = Some v <->
            (Float vt = Some (sv_type var) /\
             exists l, f32v var = Ok l /\ v = FloatValues (firstn count l))
            \/ (exists float_type,
                  Float vt = Some float_type /\ float_type <> sv_type var /\
                  Int vt = Some (sv_type var) /\
                  exists l, s32v var = Ok l /\ v = IntValues (firstn count l))
            \/ (exists float_type int_type,
                  Float vt = Some float_type /\ float_type <> sv_type var /\
                  Int vt = Some int_type /\ int_type <> sv_type var /\
                  UInt vt = Some (sv_type var) /\
                  exists l, u32v var = Ok l /\
                            v = IntValues (firstn count l))) /\
        (Int vt = None -> Float vt <> Some (sv_type var) ->
         vi_value info = None)).
Proof.
  intros out. subst out. unfold serialize_variables.
  split; [apply length_map|]. split.
  - rewrite flat_map_map, !map_flat_map_comm.
    apply flat_map_ext. intros var. apply serialize_variable_names.
  - intros var Hin. cbv zeta. split.
    + rewrite flat_map_map. apply in_flat_map in Hin.
      destruct Hin as (root & Hroot & Hin). apply in_flat_map.
      exists root. split; [exact Hroot|].
      now apply serialize_variable_member.
    + destruct var as [nm ty rows columns floats sints uints mems].
      cbn [serialize_variable vi_name vi_type vi_rows vi_columns vi_members
           vi_value sv_name sv_type sv_rows sv_columns members f32v s32v u32v].
      do 4 (split; [reflexivity|]). split; [|split].
      * destruct mems; split; try reflexivity; discriminate.
      * intros v. apply try_value_some.
      * intros Hint Hfloat.
        destruct (try_value F vt ty (rows * columns) floats sints uints)
          as [v|] eqn:Hv; [|reflexivity].
        apply try_value_some in Hv.
        destruct Hv as [[H _]|[(? & _ & _ & H & _)|(? & ? & _ & _ & H & _)]];
          [now destruct Hfloat | rewrite Hint in H; discriminate H
          | rewrite Hint in H; discriminate H].
Qed.

End VariableShape.

(** A structure with a colour of four unsigned integers, stored in an
    array of eight, under an engine whose [rd.VarType] has the members
    [Float] and [UInt] but none called [Int]. *)
Lemma serialize_variables_keeps_shape_witness :
  let vt := mkVarTypes (Some 0) None (Some 4) in
  let str_type (ty : Z) := String.append "VarType." (fmt_d ty) in
  let colour :=
    mkShaderVariable "colour" 4 1 4 (Ok ([] : list Z))
      (Ok []) (Ok [255; 128; 0; 255; 0; 0; 0; 0]) [] in
  let light :=
    mkShaderVariable "light" 13 0 0 (Ok []) (Ok []) (Ok []) [colour] in
  vi_value (serialize_variable Z vt str_type colour) = None
  /\ vi_members (serialize_variable Z vt str_type light) <> None.
Proof.
  intros vt str_type colour light.
  destruct (proj2 (proj2 (serialize_variables_keeps_shape Z vt str_type
                            [light])))
    with (var := colour) as (_ & _ & _ & _ & _ & _ & _ & Hvalue);
    [right; left; reflexivity|].
  destruct (proj2 (proj2 (serialize_variables_keeps_shape Z vt str_type
                            [light])))
    with (var := light) as (_ & _ & _ & _ & _ & Hmembers & _);
    [left; reflexivity|].
  split.
  - apply Hvalue; [reflexivity | discriminate].
  - intros Hnone. apply Hmembers in Hnone. discriminate Hnone.
Defined.

(** ** Buffer contents *)

Section BufferContentsFacts.

Variable py_int : string -> Result Z.
Variable b64encode : list Byte.byte -> string.
Variable GetBufferData : ResourceId -> Z -> Z -> Result (list Byte.byte).

Lemma find_buffer_first rid earlier buf later :
  Forall (fun b => rid_eqb (buf_resourceId b) rid = false) earlier ->
  rid_eqb (buf_resourceId buf) rid = true ->
  find_buffer rid (earlier ++ buf :: later) = Some buf.
Proof.
  intros Hearlier Hbuf. unfold find_buffer.
  induction Hearlier as [|b earlier Hb _ IH]; cbn [app find].
  - now rewrite Hbuf.
  - now rewrite Hb.
Qed.

Lemma find_buffer_none rid buffers :
  Forall (fun b => rid_eqb (buf_resourceId b) rid = false) buffers ->
  find_buffer rid buffers = None.
Proof.
  intros Hall. unfold find_buffer.
  induction Hall as [|b buffers Hb _ IH]; cbn [find]; [reflexivity|].
  now rewrite Hb.
Qed.

(** X16: with a capture loaded and an id that parses,
    [get_buffer_contents] reads the first buffer of the capture whose id
    is the parsed id, for every [length]: an answer carries the id as it
    was given, the length of that buffer as ["total_size"], the offset as
    given, and under ["length"] and ["content_base64"] the size and the
    encoding of the bytes that the engine returned for the request; the
    number of bytes requested is [length] when it is positive and the
    length of the buffer otherwise, and an exception of the engine leaves
    the method.  So a [length] that is not positive (the default 0, or a
    negative one) behaves as [length] set to the length of the buffer. *)
Theorem buffer_length_defaults_to_whole_buffer
    buffers resource_id offset length rid earlier buf later :
  parse_resource_id py_int resource_id = Ok rid ->
  buffers = earlier ++ buf :: later ->
  Forall (fun b => rid_eqb (buf_resourceId b) rid = false) earlier ->
  rid_eqb (buf_resourceId buf) rid = true ->
  let requested := if 0 <? length then length else buf_length buf in
  let answer :=
    get_buffer_contents py_int b64encode GetBufferData true buffers
      resource_id offset length in
  (forall bd,
      answer = Ok bd <->
      exists data,
        GetBufferData rid offset requested = Ok data /\
        bd = mkBufferData resource_id (Z.of_nat (List.length data))
               (buf_length buf) offset (b64encode data))
  /\ (forall e,
        answer = ValueError e <-> GetBufferData rid offset requested = ValueError e)
  /\ (length <= 0 ->
      answer =
      get_buffer_contents py_int b64encode GetBufferData true buffers
        resource_id offset (buf_length buf)).
Proof.
  intros Hparse -> Hearlier Hbuf requested answer.
  assert (Hanswer : forall len,
             get_buffer_contents py_int b64encode GetBufferData true
               (earlier ++ buf :: later) resource_id offset len =
             match GetBufferData rid offset
                     (if 0 <? len then len else buf_length buf) with
             | Ok data =>
               Ok (mkBufferData resource_id (Z.of_nat (List.length data))
                     (buf_length buf) offset (b64encode data))
             | ValueError e => ValueError e
             end).
  { intros len. unfold get_buffer_contents. cbn [negb]. rewrite Hparse.
    rewrite (find_buffer_first _ _ _ _ Hearlier Hbuf). cbv zeta.
    now rewrite Z.gtb_ltb. }
  subst answer requested. rewrite !Hanswer. split; [|split].
  - intros bd.
    destruct (GetBufferData rid offset
                (if 0 <? length then length else buf_length buf))
      as [data|e]; split.
    + intros Heq. injection Heq as <-. now exists data.
    + intros (data' & Heq & ->). now injection Heq as <-.
    + discriminate.
    + intros (data' & Heq & _). discriminate Heq.
  - intros e.
    destruct (GetBufferData rid offset
                (if 0 <? length then length else buf_length buf))
      as [data|e']; split; intros Heq;
      solve [discriminate Heq | injection Heq as ->; reflexivity].
  - intros Hlen.
    assert (Hl : (0 <? length) = false) by (apply Z.ltb_ge; exact Hlen).
    rewrite Hl. now destruct (0 <? buf_length buf).
Qed.

(** X17: with a capture loaded, a resource id that does not parse is
    answered with "Invalid resource ID: " and the id as it was given,
    whatever the text of the exception of [int]; and an id that parses but
    is the id of no buffer of the capture is answered with
    "Buffer not found: " and the id, without asking the engine for
    data. *)
Theorem buffer_lookup_failures buffers resource_id offset length :
  (forall msg,
      parse_resource_id py_int resource_id = ValueError msg ->
      get_buffer_contents py_int b64encode GetBufferData true buffers
        resource_id offset length =
      ValueError (String.append "Invalid resource ID: " resource_id))
  /\ (forall rid,
        parse_resource_id py_int resource_id = Ok rid ->
        Forall (fun b => rid_eqb (buf_resourceId b) rid = false) buffers ->
        get_buffer_contents py_int b64encode GetBufferData true buffers
          resource_id offset length =
        ValueError (String.append "Buffer not found: " resource_id)).
Proof.
  split.
  - intros msg Hparse. unfold get_buffer_contents. cbn [negb].
    now rewrite Hparse.
  - intros rid Hparse Hall. unfold get_buffer_contents. cbn [negb].
    rewrite Hparse. now rewrite (find_buffer_none _ _ Hall).
Qed.

End BufferContentsFacts.

(** Two buffers share no id; the second one is read whole. *)
Lemma buffer_length_defaults_to_whole_buffer_witness :
  let engine (_ : ResourceId) (_ n : Z) :=
    Ok (firstn (Z.to_nat n) [Byte.x00; Byte.x01; Byte.x02; Byte.x03]) in
  let buffers := [mkBuffer (mkResourceId 7) 16; mkBuffer (mkResourceId 12) 3] in
  get_buffer_contents decimal_int base64 engine true buffers
    "ResourceId::12" 0 0 =
  get_buffer_contents decimal_int base64 engine true buffers
    "ResourceId::12" 0 3.
Proof.
  intros engine buffers.
  refine (proj2 (proj2
            (buffer_length_defaults_to_whole_buffer decimal_int base64 engine
               buffers "ResourceId::12" 0 0 (mkResourceId 12)
               [mkBuffer (mkResourceId 7) 16] (mkBuffer (mkResourceId 12) 3) []
               _ _ _ _)) _).
  - reflexivity.
  - reflexivity.
  - repeat constructor.
  - reflexivity.
  - lia.
Defined.

(** An id that parses, in a capture without buffers. *)
Lemma buffer_lookup_failures_witness :
  let engine (_ : ResourceId) (_ _ : Z) := Ok ([] : list Byte.byte) in
  get_buffer_contents decimal_int base64 engine true [] "ResourceId::12" 0 0 =
  ValueError "Buffer not found: ResourceId::12".
Proof.
  intros engine.
  apply (proj2 (buffer_lookup_failures decimal_int base64 engine []
                  "ResourceId::12" 0 0) (mkResourceId 12)).
  - reflexivity.
  - constructor.
Defined.
